(** * Idempotent exercise-session ingest: a shallow embedding

    The development follows the TypeScript sources:
    - [types]: the event, session and idempotency records;
    - [helpers/aggregateHelper.ts]: [computeAggregates], [sum], [defaultAggregates];
    - [helpers/transactionHelper.ts]: [upsertEventAndUpdateSession];
    - [helpers/idempotencyHelper.ts]: the idempotency ledger;
    - [utils/validator.ts], [utils/normalizer.ts]: payload validation;
    - [functions/ingestSessionEvent.ts]: the request handler.

    Conventions of the embedding.
    - A Firestore [Timestamp] is represented by its [toMillis()] value, an
      integer; every constructor the sources use ([fromMillis], [fromDate],
      [now]) yields a millisecond instant.
    - A JavaScript [number] holding a measure is an exact rational ([Qc])
      wherever a statement compares totals with the sums over the stored
      events.  Addition of doubles rounds, so the order of the additions
      shows in the last bits: the module [Double] takes the aggregate engine
      and the coordinator over binary64 floats, and the comparison of arrival
      orders is made there.  Counters and lengths are integers.
    - A field that may be [undefined] at run time is an [option].  For a
      document handed to the store, [None] is a property the object does not
      have; the two objects the handler builds with a property that holds
      [undefined] are treated where it builds them.
    - The Firestore database is an explicit value [Db] passed through every
      operation, its maps keyed by the ids of the documents; the clock
      reading and the verdict of the store on each transaction attempt are
      inputs. *)

From stdpp Require Import gmap strings list fin_maps numbers sorting.
From Stdlib Require Import QArith Qcanon PrimFloat.

Local Open Scope Z_scope.

(** ** JavaScript helpers *)

(** Outcome of a call that may throw [new Error(message)]. *)
Inductive Completion (A : Type) : Type :=
| Normal (value : A)
| Throw (message : string).
Arguments Normal {A} value.
Arguments Throw {A} message.

(** [Array.prototype.sort(compareFn)]: a stable sort; [compareFn a b <= 0]
    keeps [a] before [b]. *)
Section ArraySort.
Context {A : Type} (compareFn : A → A → Z).

Fixpoint sort_insert (x : A) (l : list A) : list A :=
  match l with
  | [] => [x]
  | y :: l' =>
      if bool_decide (compareFn x y ≤ 0) then x :: y :: l'
      else y :: sort_insert x l'
  end.

Definition array_sort (l : list A) : list A := foldr sort_insert [] l.
End ArraySort.

(** [String.prototype.includes]. *)
Fixpoint includes (needle s : string) : bool :=
  String.prefix needle s ||
  match s with
  | EmptyString => false
  | String _ s' => includes needle s'
  end.

(** ** Data model *)

Definition Timestamp := Z.

(** [val || 0] on a measure: [undefined] counts as zero. *)
Definition orZero (val : option Qc) : Qc := default 0%Qc val.

Module Event.
Record t : Type := mk {
    eventId : string;
    timestamp : Timestamp;
    duration : option Qc;
    distance : option Qc;
    calories : option Qc;
    steps : option Qc;
    sequenceNumber : option Qc;
    ingestedAt : Timestamp;
    version : Z;
}.
End Event.
Abbreviation Event := Event.t.

Module SessionAggregates.
Record t : Type := mk {
    startTime : Timestamp;
    endTime : Timestamp;
    totalDuration : Qc;
    totalDistance : Qc;
    totalCalories : Qc;
    totalSteps : Qc;
    eventCount : nat;
    lastEventTime : Timestamp;
}.
End SessionAggregates.
Abbreviation SessionAggregates := SessionAggregates.t.

Module Session.
Record t : Type := mk {
    userId : string;
    startTime : Timestamp;
    endTime : option Timestamp;
    totalDuration : Qc;
    totalDistance : Qc;
    totalCalories : Qc;
    totalSteps : Qc;
    eventCount : nat;
    lastEventTime : Timestamp;
    version : Z;
    createdAt : Timestamp;
    updatedAt : Timestamp;
}.
End Session.
Abbreviation Session := Session.t.

(** ** helpers/aggregateHelper.ts *)

(** [(a, b) => a.timestamp.toMillis() - b.timestamp.toMillis()] *)
Definition byTimestamp (a b : Event) : Z :=
  Event.timestamp a - Event.timestamp b.

(** [numbers.reduce((acc, val) => acc + (val || 0), 0)] *)
Definition sum (numbers : list (option Qc)) : Qc :=
  fold_left (λ acc val, (acc + orZero val)%Qc) numbers 0%Qc.

Definition computeAggregates (events : list Event) : Completion SessionAggregates :=
  if bool_decide (length events = 0%nat) then
    Throw "Cannot compute aggregates from empty event list"
  else
    let sorted := array_sort byTimestamp events in
    let totalDuration := sum (map Event.duration sorted) in
    let totalDistance := sum (map Event.distance sorted) in
    let totalCalories := sum (map Event.calories sorted) in
    let totalSteps := sum (map Event.steps sorted) in
    match sorted !! 0%nat, sorted !! (length sorted - 1)%nat with
    | Some first, Some final =>
        Normal {|
          SessionAggregates.startTime := Event.timestamp first;
          SessionAggregates.endTime := Event.timestamp final;
          SessionAggregates.totalDuration := totalDuration;
          SessionAggregates.totalDistance := totalDistance;
          SessionAggregates.totalCalories := totalCalories;
          SessionAggregates.totalSteps := totalSteps;
          SessionAggregates.eventCount := length sorted;
          SessionAggregates.lastEventTime := Event.timestamp final;
        |}
    | _, _ => Throw "Cannot read properties of undefined (reading 'timestamp')"
    end.

Definition defaultAggregates (timestamp : Timestamp) : SessionAggregates :=
  {| SessionAggregates.startTime := timestamp;
     SessionAggregates.endTime := timestamp;
     SessionAggregates.totalDuration := 0%Qc;
     SessionAggregates.totalDistance := 0%Qc;
     SessionAggregates.totalCalories := 0%Qc;
     SessionAggregates.totalSteps := 0%Qc;
     SessionAggregates.eventCount := 0%nat;
     SessionAggregates.lastEventTime := timestamp |}.

(** ** types: idempotency records and response objects *)

Inductive IdempotencyStatus : Type := processing | completed | failed.

Module AggregateView.
Record t : Type := mk {
    totalDuration : Qc;
    totalDistance : Qc;
    totalCalories : Qc;
    totalSteps : Qc;
    eventCount : nat;
}.
End AggregateView.

Module SessionView.
Record t : Type := mk {
    sessionId : string;
    aggregates : AggregateView.t;
}.
End SessionView.

(** The messages produced by [utils/validator.ts]; the numbers interpolated
    into a message are kept as arguments. *)
Inductive ValidationError : Type :=
| EventIdRequired
| SessionIdRequired
| UserIdRequired
| TimestampRequired
| InvalidTimestampFormat (message : string)
| TimestampTooFarInFuture (futureOffset maxFutureOffset : Qc)
| TimestampTooFarInPast (pastOffset maxPastOffset : Qc)
| DistanceNegative
| DistanceExceedsMaximum (distance maxDistance : Qc)
| CaloriesNegative
| CaloriesExceedsMaximum (calories maxCalories : Qc)
| StepsNegative
| StepsNotInteger
| StepsExceedsMaximum (steps maxSteps : Qc)
| DurationNegative
| DurationExceedsMaximum (duration maxDuration : Qc).

(** The value of an [error] property: a message, or the nested object
    [{ error: message }] that [markFailed] receives from the handler. *)
Inductive ErrorValue : Type :=
| ErrorMessage (message : string)
| ErrorObject (error : string).

(** An [IngestResponse], also used for the [response: object] field of an
    idempotency record; a property that is absent or [undefined] is [None],
    so [{}] is the record of four [None]. *)
Module IngestResponse.
Record t : Type := mk {
    success : option bool;
    session : option SessionView.t;
    error : option ErrorValue;
    errors : option (list ValidationError);
}.
End IngestResponse.
Abbreviation IngestResponse := IngestResponse.t.

Definition emptyObject : IngestResponse := IngestResponse.mk None None None None.

Module IdempotencyRecord.
Record t : Type := mk {
    sessionId : string;
    status : IdempotencyStatus;
    response : IngestResponse;
    createdAt : Timestamp;
    expiresAt : Timestamp;
}.
End IdempotencyRecord.
Abbreviation IdempotencyRecord := IdempotencyRecord.t.

Module IdempotencyResult.
Record t : Type := mk {
    isDuplicate : bool;
    cachedResponse : option IngestResponse;
}.
End IdempotencyResult.
Abbreviation IdempotencyResult := IdempotencyResult.t.

(** ** config/firestore.ts: the three collections *)

Module Db.
Record t : Type := mk {
    sessions : gmap string Session;                (* /sessions/{sessionId} *)
    events : gmap string (gmap string Event);      (* /sessions/{sessionId}/events/{eventId} *)
    idempotency : gmap string IdempotencyRecord;   (* /idempotency/{key} *)
}.
End Db.
Abbreviation Db := Db.t.

Definition emptyDb : Db := Db.mk ∅ ∅ ∅.

(** The event sub-collection of one session. *)
Definition eventCollection (sessionId : string) (db : Db) : gmap string Event :=
  default ∅ (Db.events db !! sessionId).

(** The documents of a collection snapshot, in the order the store lists them. *)
Definition docs (collection : gmap string Event) : list Event :=
  (map_to_list collection).*2.

Definition setEvent (sessionId : string) (event : Event) (db : Db) : Db :=
  Db.mk (Db.sessions db)
        (<[sessionId := <[Event.eventId event := event]> (eventCollection sessionId db)]> (Db.events db))
        (Db.idempotency db).

Definition setSession (sessionId : string) (session : Session) (db : Db) : Db :=
  Db.mk (<[sessionId := session]> (Db.sessions db)) (Db.events db) (Db.idempotency db).

Definition setIdempotency (key : string) (record : IdempotencyRecord) (db : Db) : Db :=
  Db.mk (Db.sessions db) (Db.events db) (<[key := record]> (Db.idempotency db)).

Definition deleteIdempotency (key : string) (db : Db) : Db :=
  Db.mk (Db.sessions db) (Db.events db) (delete key (Db.idempotency db)).

(** ** The Firestore client

    [config/firestore.ts] takes the client as [admin.firestore()], without
    settings.  Two checks that this client makes before anything is sent to
    the store show in the functions below. *)

(** The quotation mark, character 34, which the messages of the client
    contain. *)
Definition quote : string :=
  String (Ascii.Ascii false true false false false true false false) EmptyString.

(** [Value for argument "arg"] *)
Definition argument (arg : string) : string :=
  "Value for argument " +:+ quote +:+ arg +:+ quote.

(** [path.split('/')]: the pieces of [path] between the ["/"]. *)
Fixpoint splitSlash (path : string) : list string :=
  match path with
  | EmptyString => [""]
  | String c rest =>
      if String.eqb (String c EmptyString) "/" then "" :: splitSlash rest
      else
        match splitSlash rest with
        | [] => [String c EmptyString]
        | piece :: pieces => String c piece :: pieces
        end
  end.

(** The segments of a relative path:
    [path.split('/').filter(segment => segment.length > 0)]. *)
Definition pathSegments (path : string) : list string :=
  filter (λ segment, (0 < String.length segment)%nat) (splitSlash path).

(** [collection.doc(documentPath)]: the message thrown, if any.  The path
    must not be empty, must not contain ["//"], and must lead from the
    collection to a document, which takes an odd number of segments. *)
Definition notADocument (documentPath : string) : string :=
  argument "documentPath" +:+ " must point to a document, but was "
  +:+ quote +:+ documentPath +:+ quote
  +:+ ". Your path does not contain an even number of components.".

Definition docRefusal (documentPath : string) : option string :=
  if String.eqb documentPath "" then
    Some (argument "documentPath"
          +:+ " is not a valid resource path. Path must be a non-empty string.")
  else if includes "//" documentPath then
    Some (argument "documentPath"
          +:+ " is not a valid resource path. Paths must not contain //.")
  else if Nat.even (length (pathSegments documentPath)) then
    Some (notADocument documentPath)
  else None.

(** The id under which the document of an accepted path is kept. *)
Definition documentKey (documentPath : string) : string :=
  String.concat "/" (pathSegments documentPath).

(** [set(data)]: [ignoreUndefinedProperties] not being enabled, the client
    throws when a property of [data] holds [undefined]; [field] is the path
    of that property. *)
Definition undefinedValue (field : string) : string :=
  argument "data" +:+ " is not a valid Firestore document. Cannot use "
  +:+ quote +:+ "undefined" +:+ quote
  +:+ " as a Firestore value (found in field " +:+ quote +:+ field +:+ quote
  +:+ "). If you want to ignore undefined values, enable `ignoreUndefinedProperties`.".

(** ** helpers/transactionHelper.ts *)

Inductive UpsertStatus : Type := created | duplicate | updated.

Module UpsertResult.
Record t : Type := mk {
    status : UpsertStatus;
    session : option SessionAggregates;
}.
End UpsertResult.
Abbreviation UpsertResult := UpsertResult.t.

Definition MAX_TRANSACTION_RETRIES : nat := 3.

(** The aggregates read back from a stored session on the duplicate path. *)
Definition sessionAggregates (session : Session) : SessionAggregates :=
  {| SessionAggregates.startTime := Session.startTime session;
     SessionAggregates.endTime :=
       default (Session.startTime session) (Session.endTime session);
     SessionAggregates.totalDuration := Session.totalDuration session;
     SessionAggregates.totalDistance := Session.totalDistance session;
     SessionAggregates.totalCalories := Session.totalCalories session;
     SessionAggregates.totalSteps := Session.totalSteps session;
     SessionAggregates.eventCount := Session.eventCount session;
     SessionAggregates.lastEventTime := Session.lastEventTime session |}.

(** [transaction.update(sessionRef, {...aggregates, version, updatedAt})] *)
Definition updateSession (session : Session) (aggregates : SessionAggregates)
    (version : Z) (updatedAt : Timestamp) : Session :=
  {| Session.userId := Session.userId session;
     Session.startTime := SessionAggregates.startTime aggregates;
     Session.endTime := Some (SessionAggregates.endTime aggregates);
     Session.totalDuration := SessionAggregates.totalDuration aggregates;
     Session.totalDistance := SessionAggregates.totalDistance aggregates;
     Session.totalCalories := SessionAggregates.totalCalories aggregates;
     Session.totalSteps := SessionAggregates.totalSteps aggregates;
     Session.eventCount := SessionAggregates.eventCount aggregates;
     Session.lastEventTime := SessionAggregates.lastEventTime aggregates;
     Session.version := version;
     Session.createdAt := Session.createdAt session;
     Session.updatedAt := updatedAt |}.

(** [transaction.set(sessionRef, {userId, ...aggregates, version: 1, createdAt, updatedAt})] *)
Definition newSession (userId : string) (aggregates : SessionAggregates)
    (now : Timestamp) : Session :=
  {| Session.userId := userId;
     Session.startTime := SessionAggregates.startTime aggregates;
     Session.endTime := Some (SessionAggregates.endTime aggregates);
     Session.totalDuration := SessionAggregates.totalDuration aggregates;
     Session.totalDistance := SessionAggregates.totalDistance aggregates;
     Session.totalCalories := SessionAggregates.totalCalories aggregates;
     Session.totalSteps := SessionAggregates.totalSteps aggregates;
     Session.eventCount := SessionAggregates.eventCount aggregates;
     Session.lastEventTime := SessionAggregates.lastEventTime aggregates;
     Session.version := 1;
     Session.createdAt := now;
     Session.updatedAt := now |}.

(** The function passed to [db.runTransaction]: reads on [db], then the
    writes it asks for, applied to [db].  [event] is a document the client
    takes: a measure or a sequence number that is [None] is a property the
    object does not have. *)
Definition transactionBody (sessionId userId : string) (event : Event)
    (now : Timestamp) (db : Db) : Completion (UpsertResult * Db) :=
  (* 1. Check if event already exists *)
  match eventCollection sessionId db !! Event.eventId event with
  | Some existingEvent =>
      match Db.sessions db !! sessionId with
      | Some session =>
          Normal (UpsertResult.mk duplicate (Some (sessionAggregates session)), db)
      | None => Normal (UpsertResult.mk duplicate None, db)
      end
  | None =>
      (* 2. Get or create session *)
      let sessionDoc := Db.sessions db !! sessionId in
      (* 3. Get all existing events to recompute aggregates *)
      let existingEvents :=
        array_sort byTimestamp (docs (eventCollection sessionId db)) in
      (* 4. Insert new event *)
      let db1 := setEvent sessionId event db in
      (* 5. Recompute aggregates from all events (including new one) *)
      let allEvents := existingEvents ++ [event] in
      match computeAggregates allEvents with
      | Throw message => Throw message
      | Normal aggregates =>
          (* 6. Update or create session *)
          let currentVersion :=
            match sessionDoc with
            | Some session => Session.version session
            | None => 0
            end in
          let db2 :=
            match sessionDoc with
            | Some session =>
                setSession sessionId
                  (updateSession session aggregates (currentVersion + 1) now) db1
            | None => setSession sessionId (newSession userId aggregates now) db1
            end in
          Normal (UpsertResult.mk created (Some aggregates), db2)
      end
  end.

(** What the store answers when an attempt tries to commit. *)
Inductive TxVerdict : Type :=
| Commits
| Fails (message : string).

(** [db.runTransaction(fn)]: the writes of [fn] take effect only when the
    store commits; otherwise the promise rejects and nothing is written. *)
Definition runTransaction {R : Type} (verdict : TxVerdict)
    (updateFunction : Db → Completion (R * Db)) (db : Db) : Completion (R * Db) :=
  match updateFunction db with
  | Throw message => Throw message
  | Normal result =>
      match verdict with
      | Commits => Normal result
      | Fails message => Throw message
      end
  end.

(** One call of the coordinator: what it returns or throws, how many
    transactions it started, and the [setTimeout] delays it waited for. *)
Module UpsertRun.
Record t : Type := mk {
    outcome : Completion (UpsertResult * Db);
    attempts : nat;
    delays : list Z;
}.
End UpsertRun.
Abbreviation UpsertRun := UpsertRun.t.

(** The [for (let attempt = 0; attempt < MAX_TRANSACTION_RETRIES; attempt++)]
    loop; [remaining] is [MAX_TRANSACTION_RETRIES - attempt]. *)
Fixpoint retryLoop (remaining attempt : nat) (lastError : option string)
    (delays : list Z) (store : nat → TxVerdict)
    (sessionId userId : string) (event : Event) (now : Timestamp) (db : Db)
    : UpsertRun :=
  match remaining with
  | O =>
      UpsertRun.mk (Throw (default "Transaction failed after retries" lastError))
        attempt delays
  | S remaining' =>
      match runTransaction (store attempt)
              (transactionBody sessionId userId event now) db with
      | Normal result => UpsertRun.mk (Normal result) (S attempt) delays
      | Throw message =>
          if bool_decide (attempt < MAX_TRANSACTION_RETRIES - 1)%nat
             && includes "transaction" message
          then
            retryLoop remaining' (S attempt) (Some message)
              (delays ++ [2 ^ Z.of_nat attempt * 100]) store
              sessionId userId event now db
          else UpsertRun.mk (Throw message) (S attempt) delays
      end
  end.

Definition upsertEventAndUpdateSession (store : nat → TxVerdict)
    (sessionId userId : string) (event : Event) (now : Timestamp) (db : Db)
    : UpsertRun :=
  retryLoop MAX_TRANSACTION_RETRIES 0 None [] store sessionId userId event now db.

(** ** helpers/idempotencyHelper.ts *)

Definition IDEMPOTENCY_TTL_SECONDS : Z := 24 * 60 * 60.

(** [set(data, { merge: true })] on the [response] map: the properties given
    replace the stored ones, the others stay. *)
Definition mergeObject (stored given : IngestResponse) : IngestResponse :=
  {| IngestResponse.success :=
       from_option Some (IngestResponse.success stored) (IngestResponse.success given);
     IngestResponse.session :=
       from_option Some (IngestResponse.session stored) (IngestResponse.session given);
     IngestResponse.error :=
       from_option Some (IngestResponse.error stored) (IngestResponse.error given);
     IngestResponse.errors :=
       from_option Some (IngestResponse.errors stored) (IngestResponse.errors given) |}.

Definition storedResponse (key : string) (db : Db) : IngestResponse :=
  from_option IdempotencyRecord.response emptyObject (Db.idempotency db !! key).

(** [checkIdempotency] once the reference [doc(idempotencyKey)] is built,
    [idempotencyKey] being the id of the document; [now] is the value of
    [Date.now()]. *)
Definition checkIdempotency (idempotencyKey : string) (now : Timestamp) (db : Db)
    : IdempotencyResult * Db :=
  match Db.idempotency db !! idempotencyKey with
  | None => (IdempotencyResult.mk false None, db)
  | Some data =>
      (* Check if expired *)
      if bool_decide (IdempotencyRecord.expiresAt data < now) then
        (IdempotencyResult.mk false None, deleteIdempotency idempotencyKey db)
      else
        (* If completed, return cached response *)
        match IdempotencyRecord.status data with
        | completed =>
            (IdempotencyResult.mk true (Some (IdempotencyRecord.response data)), db)
        | _ => (IdempotencyResult.mk true None, db)
        end
  end.

(** [checkIdempotency(idempotencyKey)] from its first line, for any string:
    [doc(idempotencyKey)] throws for a path it refuses, and the record read
    is the document an accepted path leads to. *)
Definition checkIdempotencyCall (idempotencyKey : string) (now : Timestamp) (db : Db)
    : Completion (IdempotencyResult * Db) :=
  match docRefusal idempotencyKey with
  | Some message => Throw message
  | None => Normal (checkIdempotency (documentKey idempotencyKey) now db)
  end.

Definition markProcessing (idempotencyKey sessionId : string) (now : Timestamp)
    (db : Db) : Db :=
  let expiresAt := now + IDEMPOTENCY_TTL_SECONDS * 1000 in
  setIdempotency idempotencyKey
    {| IdempotencyRecord.sessionId := sessionId;
       IdempotencyRecord.status := processing;
       IdempotencyRecord.response := emptyObject;
       IdempotencyRecord.createdAt := now;
       IdempotencyRecord.expiresAt := expiresAt |} db.

Definition cacheResponse (idempotencyKey sessionId : string)
    (response : IngestResponse) (now : Timestamp) (db : Db) : Db :=
  let expiresAt := now + IDEMPOTENCY_TTL_SECONDS * 1000 in
  setIdempotency idempotencyKey
    {| IdempotencyRecord.sessionId := sessionId;
       IdempotencyRecord.status := completed;
       IdempotencyRecord.response :=
         mergeObject (storedResponse idempotencyKey db) response;
       IdempotencyRecord.createdAt := now;
       IdempotencyRecord.expiresAt := expiresAt |} db.

Definition markFailed (idempotencyKey sessionId : string) (error : ErrorValue)
    (now : Timestamp) (db : Db) : Db :=
  let expiresAt := now + IDEMPOTENCY_TTL_SECONDS * 1000 in
  setIdempotency idempotencyKey
    {| IdempotencyRecord.sessionId := sessionId;
       IdempotencyRecord.status := failed;
       IdempotencyRecord.response :=
         mergeObject (storedResponse idempotencyKey db)
           (IngestResponse.mk None None (Some error) None);
       IdempotencyRecord.createdAt := now;
       IdempotencyRecord.expiresAt := expiresAt |} db.

(** ** types: event payloads *)

(** [timestamp: string | number | Timestamp].  A string comes with the
    result of [new Date(s).getTime()], [None] standing for [NaN]. *)
Inductive RawTimestamp : Type :=
| TsNumber (millis : Z)
| TsString (s : string) (time : option Z)
| TsInstance (timestamp : Timestamp).

Module RawEventPayload.
Record t : Type := mk {
    eventId : option string;
    sessionId : option string;
    userId : option string;
    timestamp : option RawTimestamp;
    duration : option Qc;
    distance : option Qc;
    calories : option Qc;
    steps : option Qc;
    sequenceNumber : option Qc;
    idempotencyKey : option string;
}.
End RawEventPayload.
Abbreviation RawEventPayload := RawEventPayload.t.

Module NormalizedEventPayload.
Record t : Type := mk {
    eventId : string;
    sessionId : string;
    userId : string;
    timestamp : Timestamp;
    duration : Qc;
    distance : Qc;
    calories : Qc;
    steps : Qc;
    sequenceNumber : option Qc;
}.
End NormalizedEventPayload.
Abbreviation NormalizedEventPayload := NormalizedEventPayload.t.

(** Truthiness of an optional string: [undefined] and [""] are falsy. *)
Definition truthy (s : option string) : bool :=
  match s with
  | Some s => negb (String.eqb s "")
  | None => false
  end.

(** Truthiness of a raw timestamp: [0] and [""] are falsy. *)
Definition truthyTimestamp (t : option RawTimestamp) : bool :=
  match t with
  | None => false
  | Some (TsNumber millis) => negb (millis =? 0)
  | Some (TsString s _) => negb (String.eqb s "")
  | Some (TsInstance _) => true
  end.

(** [a || b] on optional strings. *)
Definition orElse (a b : option string) : option string :=
  if truthy a then a else b.

(** ** utils/validator.ts *)

Module ValidationResult.
Record t : Type := mk {
    isValid : bool;
    errors : list ValidationError;
}.
End ValidationResult.
Abbreviation ValidationResult := ValidationResult.t.

Module ValidationConstraints.
Record t : Type := mk {
    maxDistance : Qc;
    maxCalories : Qc;
    maxSteps : Qc;
    maxDuration : Qc;
    maxFutureOffset : Qc;
    maxPastOffset : Qc;
}.
End ValidationConstraints.
Abbreviation ValidationConstraints := ValidationConstraints.t.

Definition DEFAULT_CONSTRAINTS : ValidationConstraints :=
  {| ValidationConstraints.maxDistance := Qc_of_Z 100000;
     ValidationConstraints.maxCalories := Qc_of_Z 10000;
     ValidationConstraints.maxSteps := Qc_of_Z 100000;
     ValidationConstraints.maxDuration := Qc_of_Z 86400;
     ValidationConstraints.maxFutureOffset := Qc_of_Z 3600;
     ValidationConstraints.maxPastOffset := Qc_of_Z 2592000 |}.

(** [Number.isInteger] on an exact rational in lowest terms. *)
Definition isInteger (x : Qc) : bool :=
  bool_decide (Qden (this x) = 1%positive).

(** [errors.length === 0] together with the list. *)
Definition validationResult (errors : list ValidationError) : ValidationResult :=
  ValidationResult.mk (bool_decide (length errors = 0%nat)) errors.

Definition validateTimestamp (timestamp now : Timestamp)
    (constraints : ValidationConstraints) : ValidationResult :=
  let timestampMillis := timestamp in
  let nowMillis := now in
  (* Check if timestamp is too far in the future *)
  let futureOffset := (Qc_of_Z (timestampMillis - nowMillis) / Qc_of_Z 1000)%Qc in
  let errors1 :=
    if bool_decide (ValidationConstraints.maxFutureOffset constraints < futureOffset)%Qc
    then [TimestampTooFarInFuture futureOffset
            (ValidationConstraints.maxFutureOffset constraints)]
    else [] in
  (* Check if timestamp is too far in the past *)
  let pastOffset := (Qc_of_Z (nowMillis - timestampMillis) / Qc_of_Z 1000)%Qc in
  let errors2 :=
    if bool_decide (ValidationConstraints.maxPastOffset constraints < pastOffset)%Qc
    then [TimestampTooFarInPast pastOffset
            (ValidationConstraints.maxPastOffset constraints)]
    else [] in
  validationResult (errors1 ++ errors2).

Definition validateDistance (distance : option Qc) (constraints : ValidationConstraints)
    : list ValidationError :=
  match distance with
  | None => []
  | Some distance =>
      if bool_decide (distance < 0)%Qc then [DistanceNegative]
      else if bool_decide (ValidationConstraints.maxDistance constraints < distance)%Qc
      then [DistanceExceedsMaximum distance (ValidationConstraints.maxDistance constraints)]
      else []
  end.

Definition validateCalories (calories : option Qc) (constraints : ValidationConstraints)
    : list ValidationError :=
  match calories with
  | None => []
  | Some calories =>
      if bool_decide (calories < 0)%Qc then [CaloriesNegative]
      else if bool_decide (ValidationConstraints.maxCalories constraints < calories)%Qc
      then [CaloriesExceedsMaximum calories (ValidationConstraints.maxCalories constraints)]
      else []
  end.

Definition validateSteps (steps : option Qc) (constraints : ValidationConstraints)
    : list ValidationError :=
  match steps with
  | None => []
  | Some steps =>
      if bool_decide (steps < 0)%Qc then [StepsNegative]
      else if negb (isInteger steps) then [StepsNotInteger]
      else if bool_decide (ValidationConstraints.maxSteps constraints < steps)%Qc
      then [StepsExceedsMaximum steps (ValidationConstraints.maxSteps constraints)]
      else []
  end.

Definition validateDuration (duration : option Qc) (constraints : ValidationConstraints)
    : list ValidationError :=
  match duration with
  | None => []
  | Some duration =>
      if bool_decide (duration < 0)%Qc then [DurationNegative]
      else if bool_decide (ValidationConstraints.maxDuration constraints < duration)%Qc
      then [DurationExceedsMaximum duration (ValidationConstraints.maxDuration constraints)]
      else []
  end.

(** The four blocks of [validateMetrics] push their errors in this order. *)
Definition validateMetrics (payload : RawEventPayload)
    (constraints : ValidationConstraints) : ValidationResult :=
  validationResult
    (validateDistance (RawEventPayload.distance payload) constraints
     ++ validateCalories (RawEventPayload.calories payload) constraints
     ++ validateSteps (RawEventPayload.steps payload) constraints
     ++ validateDuration (RawEventPayload.duration payload) constraints).

Definition normalizeTimestamp (timestamp : option RawTimestamp) : Completion Timestamp :=
  match timestamp with
  | Some (TsInstance timestamp) => Normal timestamp
  | Some (TsNumber millis) => Normal millis
  | Some (TsString s time) =>
      match time with
      | None => Throw ("Invalid timestamp string: " +:+ s)
      | Some millis => Normal millis
      end
  | None => Throw "Unsupported timestamp type: undefined"
  end.

Definition validatePayload (payload : RawEventPayload) (now : Timestamp)
    (constraints : ValidationConstraints) : ValidationResult :=
  (* Required fields *)
  let errors1 :=
    if negb (truthy (RawEventPayload.eventId payload)) then [EventIdRequired] else [] in
  let errors2 :=
    if negb (truthy (RawEventPayload.sessionId payload)) then [SessionIdRequired] else [] in
  let errors3 :=
    if negb (truthy (RawEventPayload.userId payload)) then [UserIdRequired] else [] in
  let errors4 :=
    if negb (truthyTimestamp (RawEventPayload.timestamp payload))
    then [TimestampRequired] else [] in
  (* Validate timestamp format and bounds *)
  let errors5 :=
    if truthyTimestamp (RawEventPayload.timestamp payload) then
      match normalizeTimestamp (RawEventPayload.timestamp payload) with
      | Normal timestamp =>
          let timestampValidation := validateTimestamp timestamp now constraints in
          if negb (ValidationResult.isValid timestampValidation)
          then ValidationResult.errors timestampValidation
          else []
      | Throw error => [InvalidTimestampFormat error]
      end
    else [] in
  (* Validate metrics *)
  let metricsValidation := validateMetrics payload constraints in
  let errors6 :=
    if negb (ValidationResult.isValid metricsValidation)
    then ValidationResult.errors metricsValidation
    else [] in
  validationResult (errors1 ++ errors2 ++ errors3 ++ errors4 ++ errors5 ++ errors6).

(** ** utils/normalizer.ts *)

(** The handler normalises validated payloads only, so the three
    identifiers are present; a missing one would stay [undefined], which the
    string-typed result cannot hold and is rendered as [""]. *)
Definition normalizePayload (payload : RawEventPayload)
    : Completion NormalizedEventPayload :=
  match normalizeTimestamp (RawEventPayload.timestamp payload) with
  | Throw message => Throw message
  | Normal timestamp =>
      Normal
        {| NormalizedEventPayload.eventId := default "" (RawEventPayload.eventId payload);
           NormalizedEventPayload.sessionId := default "" (RawEventPayload.sessionId payload);
           NormalizedEventPayload.userId := default "" (RawEventPayload.userId payload);
           NormalizedEventPayload.timestamp := timestamp;
           NormalizedEventPayload.duration := default 0%Qc (RawEventPayload.duration payload);
           NormalizedEventPayload.distance := default 0%Qc (RawEventPayload.distance payload);
           NormalizedEventPayload.calories := default 0%Qc (RawEventPayload.calories payload);
           NormalizedEventPayload.steps := default 0%Qc (RawEventPayload.steps payload);
           NormalizedEventPayload.sequenceNumber := RawEventPayload.sequenceNumber payload |}
  end.

(** ** functions/ingestSessionEvent.ts *)

Module IngestRequest.
Record t : Type := mk {
    idempotencyKeyHeader : option string;   (* req.headers['idempotency-key'] *)
    body : RawEventPayload;
}.
End IngestRequest.
Abbreviation IngestRequest := IngestRequest.t.

(** [res.status(code).json(payload)] *)
Module HttpResponse.
Record t : Type := mk {
    status : Z;
    json : IngestResponse;
}.
End HttpResponse.
Abbreviation HttpResponse := HttpResponse.t.

Definition missingKeyResponse : HttpResponse :=
  HttpResponse.mk 400
    (IngestResponse.mk (Some false) None
       (Some (ErrorMessage
          "Idempotency key is required (header: idempotency-key or body: idempotencyKey/eventId)"))
       None).

(** Step 1: [header || body.idempotencyKey || body.eventId]. *)
Definition extractIdempotencyKey (req : IngestRequest) : option string :=
  orElse (orElse (IngestRequest.idempotencyKeyHeader req)
            (RawEventPayload.idempotencyKey (IngestRequest.body req)))
         (RawEventPayload.eventId (IngestRequest.body req)).

Definition aggregateView (session : SessionAggregates) : AggregateView.t :=
  {| AggregateView.totalDuration := SessionAggregates.totalDuration session;
     AggregateView.totalDistance := SessionAggregates.totalDistance session;
     AggregateView.totalCalories := SessionAggregates.totalCalories session;
     AggregateView.totalSteps := SessionAggregates.totalSteps session;
     AggregateView.eventCount := SessionAggregates.eventCount session |}.

(** The success payload built in steps 8 and 10. *)
Definition successResponse (sessionId : string) (result : UpsertResult)
    : IngestResponse :=
  {| IngestResponse.success := Some true;
     IngestResponse.session :=
       match UpsertResult.session result with
       | Some session => Some (SessionView.mk sessionId (aggregateView session))
       | None => None
       end;
     IngestResponse.error := None;
     IngestResponse.errors := None |}.

(** The [catch] block: mark the key failed when both the key and the session
    id are known, then answer 500. *)
Definition handleError (idempotencyKey sessionId : option string)
    (errorMessage : string) (now : Timestamp) (db : Db) : HttpResponse * Db :=
  let db' :=
    match idempotencyKey, sessionId with
    | Some key, Some sid =>
        if truthy idempotencyKey && truthy sessionId
        then markFailed key sid (ErrorObject errorMessage) now db
        else db
    | _, _ => db
    end in
  (HttpResponse.mk 500
     (IngestResponse.mk (Some false) None (Some (ErrorMessage errorMessage)) None),
   db').

(** The loop of [upsertEventAndUpdateSession] around a transaction
    function [updateFunction]. *)
Fixpoint retryLoopWith (updateFunction : Db → Completion (UpsertResult * Db))
    (remaining attempt : nat) (lastError : option string)
    (delays : list Z) (store : nat → TxVerdict) (db : Db) : UpsertRun :=
  match remaining with
  | O =>
      UpsertRun.mk (Throw (default "Transaction failed after retries" lastError))
        attempt delays
  | S remaining' =>
      match runTransaction (store attempt) updateFunction db with
      | Normal result => UpsertRun.mk (Normal result) (S attempt) delays
      | Throw message =>
          if bool_decide (attempt < MAX_TRANSACTION_RETRIES - 1)%nat
             && includes "transaction" message
          then
            retryLoopWith updateFunction remaining' (S attempt) (Some message)
              (delays ++ [2 ^ Z.of_nat attempt * 100]) store db
          else UpsertRun.mk (Throw message) (S attempt) delays
      end
  end.

(** The transaction function run on the event object of step 6.  That
    object always has a [sequenceNumber] property; when the payload has none
    its value is [undefined], and [transaction.set(eventRef, event)] throws.
    The duplicate path returns before that line. *)
Definition transactionBodyObject (sessionId userId : string) (event : Event)
    (now : Timestamp) (db : Db) : Completion (UpsertResult * Db) :=
  match eventCollection sessionId db !! Event.eventId event,
        Event.sequenceNumber event with
  | None, None => Throw (undefinedValue "sequenceNumber")
  | _, _ => transactionBody sessionId userId event now db
  end.

(** [upsertEventAndUpdateSession(sessionId, userId, event)] as step 7 calls
    it, with that object. *)
Definition upsertEventObject (store : nat → TxVerdict)
    (sessionId userId : string) (event : Event) (now : Timestamp) (db : Db)
    : UpsertRun :=
  retryLoopWith (transactionBodyObject sessionId userId event now)
    MAX_TRANSACTION_RETRIES 0 None [] store db.

(** [cacheResponse(idempotencyKey, sessionId, response)] as steps 8 and 10
    call it.  The response object always has a [session] property; when the
    upsert returned no session its value is [undefined], and the [set] of
    [cacheResponse] throws. *)
Definition cacheResponseObject (idempotencyKey sessionId : string)
    (response : IngestResponse) (now : Timestamp) (db : Db) : Completion Db :=
  match IngestResponse.session response with
  | None => Throw (undefinedValue "response.session")
  | Some _ => Normal (cacheResponse idempotencyKey sessionId response now db)
  end.

(** Steps 3 to 11: validate, normalise, mark the key as processing, run the
    upsert and cache the answer.  Calls to [logger] and [metrics] only append
    to in-memory observers and are left out.  [now] is the clock reading,
    [store] the verdict of the database on each transaction attempt.  An
    error thrown by a step is handled by the [catch] block in the state the
    database has reached. *)
Definition validateAndUpsert (idempotencyKey : string) (req : IngestRequest)
    (now : Timestamp) (store : nat → TxVerdict) (db1 : Db) : HttpResponse * Db :=
  (* 3. Validate payload *)
  let validationResult :=
    validatePayload (IngestRequest.body req) now DEFAULT_CONSTRAINTS in
  if negb (ValidationResult.isValid validationResult) then
    (HttpResponse.mk 400
       (IngestResponse.mk (Some false) None None
          (Some (ValidationResult.errors validationResult))),
     db1)
  else
    (* 4. Normalize payload *)
    match normalizePayload (IngestRequest.body req) with
    | Throw message => handleError (Some idempotencyKey) None message now db1
    | Normal normalized =>
        let sessionId := NormalizedEventPayload.sessionId normalized in
        let userId := NormalizedEventPayload.userId normalized in
        (* 5. Mark as processing *)
        let db2 := markProcessing idempotencyKey sessionId now db1 in
        (* 6. Create event object *)
        let event :=
          {| Event.eventId := NormalizedEventPayload.eventId normalized;
             Event.timestamp := NormalizedEventPayload.timestamp normalized;
             Event.duration := Some (NormalizedEventPayload.duration normalized);
             Event.distance := Some (NormalizedEventPayload.distance normalized);
             Event.calories := Some (NormalizedEventPayload.calories normalized);
             Event.steps := Some (NormalizedEventPayload.steps normalized);
             Event.sequenceNumber := NormalizedEventPayload.sequenceNumber normalized;
             Event.ingestedAt := now;
             Event.version := 1 |} in
        (* 7. Execute transaction to upsert event and update session *)
        match UpsertRun.outcome
                (upsertEventObject store sessionId userId event now db2) with
        | Throw message =>
            handleError (Some idempotencyKey) (Some sessionId) message now db2
        | Normal (result, db3) =>
            match UpsertResult.status result with
            | duplicate =>
                (* 8. Event already existed: cache the response *)
                let response := successResponse sessionId result in
                match cacheResponseObject idempotencyKey sessionId response now db3 with
                | Throw message =>
                    handleError (Some idempotencyKey) (Some sessionId) message now db3
                | Normal db4 => (HttpResponse.mk 200 response, db4)
                end
            | _ =>
                (* 10. Cache successful response *)
                let response := successResponse sessionId result in
                match cacheResponseObject idempotencyKey sessionId response now db3 with
                | Throw message =>
                    handleError (Some idempotencyKey) (Some sessionId) message now db3
                | Normal db4 => (HttpResponse.mk 200 response, db4)
                end
            end
        end
    end.

(** Step 2, once a truthy idempotency key has been found: a duplicate with a
    cached response is answered from the cache, anything else goes on. *)
Definition processWithKey (idempotencyKey : string) (req : IngestRequest)
    (now : Timestamp) (store : nat → TxVerdict) (db : Db) : HttpResponse * Db :=
  let '(idempotencyResult, db1) := checkIdempotency idempotencyKey now db in
  match IdempotencyResult.isDuplicate idempotencyResult,
        IdempotencyResult.cachedResponse idempotencyResult with
  | true, Some cachedResponse => (HttpResponse.mk 200 cachedResponse, db1)
  | _, _ => validateAndUpsert idempotencyKey req now store db1
  end.

Definition ingestSessionEvent (req : IngestRequest) (now : Timestamp)
    (store : nat → TxVerdict) (db : Db) : HttpResponse * Db :=
  (* 1. Extract idempotency key from headers or body *)
  let idempotencyKey := extractIdempotencyKey req in
  if negb (truthy idempotencyKey) then (missingKeyResponse, db)
  else
    match idempotencyKey with
    | Some key => processWithKey key req now store db
    | None => (missingKeyResponse, db)
    end.

(** ** Runs of the system *)

(** One submission to the coordinator. *)
Module Submission.
Record t : Type := mk {
    userId : string;
    event : Event;
    now : Timestamp;
    store : nat → TxVerdict;
}.
End Submission.
Abbreviation Submission := Submission.t.

(** The store commits every attempt. *)
Definition reliable : nat → TxVerdict := λ _, Commits.

(** A store that reports a conflict on the first two attempts and then commits. *)
Definition twoConflicts : nat → TxVerdict :=
  λ attempt,
    match attempt with
    | 0%nat | 1%nat =>
        Fails "10 ABORTED: The referenced transaction has expired or is no longer valid."
    | _ => Commits
    end.

(** Submitting a list of events for one session, one upsert after the other;
    [None] when one of the calls throws. *)
Fixpoint submitAll (sessionId : string) (submissions : list Submission) (db : Db)
    : option Db :=
  match submissions with
  | [] => Some db
  | s :: rest =>
      match UpsertRun.outcome
              (upsertEventAndUpdateSession (Submission.store s) sessionId
                 (Submission.userId s) (Submission.event s) (Submission.now s) db) with
      | Normal (_, db') => submitAll sessionId rest db'
      | Throw _ => None
      end
  end.

(** The store answers some attempt of a call with a commit, every earlier
    attempt having failed with a conflict the coordinator retries. *)
Definition eventuallyCommits (store : nat → TxVerdict) : Prop :=
  ∃ n : nat, (n < MAX_TRANSACTION_RETRIES)%nat ∧ store n = Commits ∧
    ∀ i : nat, (i < n)%nat → ∃ message, store i = Fails message ∧
                                   includes "transaction" message = true.

(** The states the database goes through: it starts empty, and each step is
    a call of the coordinator that returns, or a ledger operation. *)
Inductive step : Db → Db → Prop :=
| step_upsert store sessionId userId event now db result db' :
    UpsertRun.outcome
      (upsertEventAndUpdateSession store sessionId userId event now db)
      = Normal (result, db') →
    step db db'
| step_check key now db :
    step db (checkIdempotency key now db).2
| step_markProcessing key sessionId now db :
    step db (markProcessing key sessionId now db)
| step_cacheResponse key sessionId response now db :
    step db (cacheResponse key sessionId response now db)
| step_markFailed key sessionId error now db :
    step db (markFailed key sessionId error now db).

Inductive reachable : Db → Prop :=
| reachable_empty : reachable emptyDb
| reachable_step db db' : reachable db → step db db' → reachable db'.

(** ** The aggregate engine and the coordinator on doubles

    A JavaScript [number] is a binary64 float, and a sum of doubles depends
    on the order in which they are added.  The definitions of this module
    are those of [helpers/aggregateHelper.ts] and
    [helpers/transactionHelper.ts] once more, with [float] for the measures;
    the database has the two collections the coordinator works on. *)
Module Double.

(** [val || 0] on a measure: [undefined], [NaN], [0] and [-0] are falsy. *)
Definition orZero (val : option float) : float :=
  match val with
  | Some x => if PrimFloat.is_nan x || PrimFloat.is_zero x then 0%float else x
  | None => 0%float
  end.

Module Event.
Record t : Type := mk {
    eventId : string;
    timestamp : Timestamp;
    duration : option float;
    distance : option float;
    calories : option float;
    steps : option float;
    sequenceNumber : option float;
    ingestedAt : Timestamp;
    version : Z;
}.
End Event.
Abbreviation Event := Event.t.

Module SessionAggregates.
Record t : Type := mk {
    startTime : Timestamp;
    endTime : Timestamp;
    totalDuration : float;
    totalDistance : float;
    totalCalories : float;
    totalSteps : float;
    eventCount : nat;
    lastEventTime : Timestamp;
}.
End SessionAggregates.
Abbreviation SessionAggregates := SessionAggregates.t.

Module Session.
Record t : Type := mk {
    userId : string;
    startTime : Timestamp;
    endTime : option Timestamp;
    totalDuration : float;
    totalDistance : float;
    totalCalories : float;
    totalSteps : float;
    eventCount : nat;
    lastEventTime : Timestamp;
    version : Z;
    createdAt : Timestamp;
    updatedAt : Timestamp;
}.
End Session.
Abbreviation Session := Session.t.

(** [(a, b) => a.timestamp.toMillis() - b.timestamp.toMillis()] *)
Definition byTimestamp (a b : Event) : Z :=
  Event.timestamp a - Event.timestamp b.

(** [numbers.reduce((acc, val) => acc + (val || 0), 0)] *)
Definition sum (numbers : list (option float)) : float :=
  fold_left (λ acc val, (acc + orZero val)%float) numbers 0%float.

Definition computeAggregates (events : list Event) : Completion SessionAggregates :=
  if bool_decide (length events = 0%nat) then
    Throw "Cannot compute aggregates from empty event list"
  else
    let sorted := array_sort byTimestamp events in
    let totalDuration := sum (map Event.duration sorted) in
    let totalDistance := sum (map Event.distance sorted) in
    let totalCalories := sum (map Event.calories sorted) in
    let totalSteps := sum (map Event.steps sorted) in
    match sorted !! 0%nat, sorted !! (length sorted - 1)%nat with
    | Some first, Some final =>
        Normal {|
          SessionAggregates.startTime := Event.timestamp first;
          SessionAggregates.endTime := Event.timestamp final;
          SessionAggregates.totalDuration := totalDuration;
          SessionAggregates.totalDistance := totalDistance;
          SessionAggregates.totalCalories := totalCalories;
          SessionAggregates.totalSteps := totalSteps;
          SessionAggregates.eventCount := length sorted;
          SessionAggregates.lastEventTime := Event.timestamp final;
        |}
    | _, _ => Throw "Cannot read properties of undefined (reading 'timestamp')"
    end.

Module Db.
Record t : Type := mk {
    sessions : gmap string Session;                (* /sessions/{sessionId} *)
    events : gmap string (gmap string Event);      (* /sessions/{sessionId}/events/{eventId} *)
}.
End Db.
Abbreviation Db := Db.t.

Definition emptyDb : Db := Db.mk ∅ ∅.

Definition eventCollection (sessionId : string) (db : Db) : gmap string Event :=
  default ∅ (Db.events db !! sessionId).

(** The documents of a collection snapshot, in the order the store lists them. *)
Definition docs (collection : gmap string Event) : list Event :=
  (map_to_list collection).*2.

Definition setEvent (sessionId : string) (event : Event) (db : Db) : Db :=
  Db.mk (Db.sessions db)
        (<[sessionId := <[Event.eventId event := event]> (eventCollection sessionId db)]> (Db.events db)).

Definition setSession (sessionId : string) (session : Session) (db : Db) : Db :=
  Db.mk (<[sessionId := session]> (Db.sessions db)) (Db.events db).

Module UpsertResult.
Record t : Type := mk {
    status : UpsertStatus;
    session : option SessionAggregates;
}.
End UpsertResult.
Abbreviation UpsertResult := UpsertResult.t.

(** The aggregates read back from a stored session on the duplicate path. *)
Definition sessionAggregates (session : Session) : SessionAggregates :=
  {| SessionAggregates.startTime := Session.startTime session;
     SessionAggregates.endTime :=
       default (Session.startTime session) (Session.endTime session);
     SessionAggregates.totalDuration := Session.totalDuration session;
     SessionAggregates.totalDistance := Session.totalDistance session;
     SessionAggregates.totalCalories := Session.totalCalories session;
     SessionAggregates.totalSteps := Session.totalSteps session;
     SessionAggregates.eventCount := Session.eventCount session;
     SessionAggregates.lastEventTime := Session.lastEventTime session |}.

(** [transaction.update(sessionRef, {...aggregates, version, updatedAt})] *)
Definition updateSession (session : Session) (aggregates : SessionAggregates)
    (version : Z) (updatedAt : Timestamp) : Session :=
  {| Session.userId := Session.userId session;
     Session.startTime := SessionAggregates.startTime aggregates;
     Session.endTime := Some (SessionAggregates.endTime aggregates);
     Session.totalDuration := SessionAggregates.totalDuration aggregates;
     Session.totalDistance := SessionAggregates.totalDistance aggregates;
     Session.totalCalories := SessionAggregates.totalCalories aggregates;
     Session.totalSteps := SessionAggregates.totalSteps aggregates;
     Session.eventCount := SessionAggregates.eventCount aggregates;
     Session.lastEventTime := SessionAggregates.lastEventTime aggregates;
     Session.version := version;
     Session.createdAt := Session.createdAt session;
     Session.updatedAt := updatedAt |}.

(** [transaction.set(sessionRef, {userId, ...aggregates, version: 1, createdAt, updatedAt})] *)
Definition newSession (userId : string) (aggregates : SessionAggregates)
    (now : Timestamp) : Session :=
  {| Session.userId := userId;
     Session.startTime := SessionAggregates.startTime aggregates;
     Session.endTime := Some (SessionAggregates.endTime aggregates);
     Session.totalDuration := SessionAggregates.totalDuration aggregates;
     Session.totalDistance := SessionAggregates.totalDistance aggregates;
     Session.totalCalories := SessionAggregates.totalCalories aggregates;
     Session.totalSteps := SessionAggregates.totalSteps aggregates;
     Session.eventCount := SessionAggregates.eventCount aggregates;
     Session.lastEventTime := SessionAggregates.lastEventTime aggregates;
     Session.version := 1;
     Session.createdAt := now;
     Session.updatedAt := now |}.

(** The function passed to [db.runTransaction]. *)
Definition transactionBody (sessionId userId : string) (event : Event)
    (now : Timestamp) (db : Db) : Completion (UpsertResult * Db) :=
  (* 1. Check if event already exists *)
  match eventCollection sessionId db !! Event.eventId event with
  | Some existingEvent =>
      match Db.sessions db !! sessionId with
      | Some session =>
          Normal (UpsertResult.mk duplicate (Some (sessionAggregates session)), db)
      | None => Normal (UpsertResult.mk duplicate None, db)
      end
  | None =>
      (* 2. Get or create session *)
      let sessionDoc := Db.sessions db !! sessionId in
      (* 3. Get all existing events to recompute aggregates *)
      let existingEvents :=
        array_sort byTimestamp (docs (eventCollection sessionId db)) in
      (* 4. Insert new event *)
      let db1 := setEvent sessionId event db in
      (* 5. Recompute aggregates from all events (including new one) *)
      let allEvents := existingEvents ++ [event] in
      match computeAggregates allEvents with
      | Throw message => Throw message
      | Normal aggregates =>
          (* 6. Update or create session *)
          let currentVersion :=
            match sessionDoc with
            | Some session => Session.version session
            | None => 0
            end in
          let db2 :=
            match sessionDoc with
            | Some session =>
                setSession sessionId
                  (updateSession session aggregates (currentVersion + 1) now) db1
            | None => setSession sessionId (newSession userId aggregates now) db1
            end in
          Normal (UpsertResult.mk created (Some aggregates), db2)
      end
  end.

(** [db.runTransaction(fn)]: the writes of [fn] take effect only when the
    store commits. *)
Definition runTransaction {R : Type} (verdict : TxVerdict)
    (updateFunction : Db → Completion (R * Db)) (db : Db) : Completion (R * Db) :=
  match updateFunction db with
  | Throw message => Throw message
  | Normal result =>
      match verdict with
      | Commits => Normal result
      | Fails message => Throw message
      end
  end.

Module UpsertRun.
Record t : Type := mk {
    outcome : Completion (UpsertResult * Db);
    attempts : nat;
    delays : list Z;
}.
End UpsertRun.
Abbreviation UpsertRun := UpsertRun.t.

Fixpoint retryLoop (remaining attempt : nat) (lastError : option string)
    (delays : list Z) (store : nat → TxVerdict)
    (sessionId userId : string) (event : Event) (now : Timestamp) (db : Db)
    : UpsertRun :=
  match remaining with
  | O =>
      UpsertRun.mk (Throw (default "Transaction failed after retries" lastError))
        attempt delays
  | S remaining' =>
      match runTransaction (store attempt)
              (transactionBody sessionId userId event now) db with
      | Normal result => UpsertRun.mk (Normal result) (S attempt) delays
      | Throw message =>
          if bool_decide (attempt < MAX_TRANSACTION_RETRIES - 1)%nat
             && includes "transaction" message
          then
            retryLoop remaining' (S attempt) (Some message)
              (delays ++ [2 ^ Z.of_nat attempt * 100]) store
              sessionId userId event now db
          else UpsertRun.mk (Throw message) (S attempt) delays
      end
  end.

Definition upsertEventAndUpdateSession (store : nat → TxVerdict)
    (sessionId userId : string) (event : Event) (now : Timestamp) (db : Db)
    : UpsertRun :=
  retryLoop MAX_TRANSACTION_RETRIES 0 None [] store sessionId userId event now db.

(** One submission to the coordinator. *)
Module Submission.
Record t : Type := mk {
    userId : string;
    event : Event;
    now : Timestamp;
    store : nat → TxVerdict;
}.
End Submission.
Abbreviation Submission := Submission.t.

(** Submitting a list of events for one session, one upsert after the other;
    [None] when one of the calls throws. *)
Fixpoint submitAll (sessionId : string) (submissions : list Submission) (db : Db)
    : option Db :=
  match submissions with
  | [] => Some db
  | s :: rest =>
      match UpsertRun.outcome
              (upsertEventAndUpdateSession (Submission.store s) sessionId
                 (Submission.userId s) (Submission.event s) (Submission.now s) db) with
      | Normal (_, db') => submitAll sessionId rest db'
      | Throw _ => None
      end
  end.

(** *** Reference notions *)

(** What a measure counts for in a total: its value, and 0 when it is
    absent, not a number (the only double that differs from itself) or a
    zero of either sign. *)
Definition counted (measure : option float) : float :=
  match measure with
  | None => 0%float
  | Some x =>
      if PrimFloat.eqb x x then (if PrimFloat.eqb x 0%float then 0%float else x)
      else 0%float
  end.

(** The double obtained by adding one measure of the events to 0, in the
    order of the list. *)
Definition runningTotal (field : Event → option float) (events : list Event) : float :=
  fold_left (λ acc e, (acc + counted (field e))%float) events 0%float.

(** [t] is the least (resp. greatest) timestamp occurring in [events]. *)
Definition isEarliest (t : Timestamp) (events : list Event) : Prop :=
  t ∈ map Event.timestamp events ∧ Forall (λ e, t ≤ Event.timestamp e) events.
Definition isLatest (t : Timestamp) (events : list Event) : Prop :=
  t ∈ map Event.timestamp events ∧ Forall (λ e, Event.timestamp e ≤ t) events.

(** Ascending timestamp order, and strictly ascending. *)
Definition timestampLe (a b : Event) : Prop :=
  Event.timestamp a ≤ Event.timestamp b.

(** No two of the events have the same timestamp. *)
Definition distinctTimestamps (events : list Event) : Prop :=
  NoDup (map Event.timestamp events).

(** The session document written by the create path. *)
Definition writtenSession (sessionId userId : string) (aggregates : SessionAggregates)
    (now : Timestamp) (db : Db) : Session :=
  match Db.sessions db !! sessionId with
  | Some session => updateSession session aggregates (Session.version session + 1) now
  | None => newSession userId aggregates now
  end.

(** *** Reference data *)

(** The doubles nearest to 0.1, 0.2, 0.3, 0.6 and 0.6000000000000001. *)
Definition d01 : float := 0x1.999999999999ap-4.
Definition d02 : float := 0x1.999999999999ap-3.
Definition d03 : float := 0x1.3333333333333p-2.
Definition d06 : float := 0x1.3333333333333p-1.
Definition d06up : float := 0x1.3333333333334p-1.

(** An event that covers [distance] at the instant [timestamp]. *)
Definition leg (eventId : string) (timestamp : Z) (distance : float) : Event :=
  {| Event.eventId := eventId;
     Event.timestamp := timestamp;
     Event.duration := Some 1%float;
     Event.distance := Some distance;
     Event.calories := Some 0%float;
     Event.steps := Some 0%float;
     Event.sequenceNumber := Some 1%float;
     Event.ingestedAt := 1000;
     Event.version := 1 |}.

Definition submit (event : Event) (now : Timestamp) : Submission :=
  Submission.mk "user-1" event now reliable.

(** Three events recorded at the same instant, covering 0.1, 0.2 and 0.3,
    and their submission in two orders. *)
Definition legA : Event := leg "a" 1000 d01.
Definition legB : Event := leg "b" 1000 d02.
Definition legC : Event := leg "c" 1000 d03.


(** The same three distances, recorded one second apart. *)
Definition lapA : Event := leg "a" 1000 d01.
Definition lapB : Event := leg "b" 2000 d02.
Definition lapC : Event := leg "c" 3000 d03.


End Double.

(** ** Reference notions used in the statements *)

(** The sum of one measure over a collection of events, absent values
    counting as zero. *)
Definition measureTotal (field : Event → option Qc) (events : list Event) : Qc :=
  foldr (λ e acc, (orZero (field e) + acc)%Qc) 0%Qc events.

(** [t] is the least (resp. greatest) timestamp occurring in [events]. *)
Definition isEarliest (t : Timestamp) (events : list Event) : Prop :=
  t ∈ map Event.timestamp events ∧ Forall (λ e, t ≤ Event.timestamp e) events.
Definition isLatest (t : Timestamp) (events : list Event) : Prop :=
  t ∈ map Event.timestamp events ∧ Forall (λ e, Event.timestamp e ≤ t) events.

(** Ascending timestamp order. *)
Definition timestampLe (a b : Event) : Prop :=
  Event.timestamp a ≤ Event.timestamp b.

(** What the aggregate engine is expected to report for [events]. *)
Record summarises (agg : SessionAggregates) (events : list Event) : Prop := {
  sum_duration : SessionAggregates.totalDuration agg = measureTotal Event.duration events;
  sum_distance : SessionAggregates.totalDistance agg = measureTotal Event.distance events;
  sum_calories : SessionAggregates.totalCalories agg = measureTotal Event.calories events;
  sum_steps : SessionAggregates.totalSteps agg = measureTotal Event.steps events;
  sum_count : SessionAggregates.eventCount agg = length events;
  sum_start : isEarliest (SessionAggregates.startTime agg) events;
  sum_end : isLatest (SessionAggregates.endTime agg) events;
  sum_last : SessionAggregates.lastEventTime agg = SessionAggregates.endTime agg;
}.


(** The events currently stored for a session. *)
Definition storedEvents (sessionId : string) (db : Db) : list Event :=
  docs (eventCollection sessionId db).


(** ** Reference data for the statements *)

(** The session document written by the create path. *)
Definition writtenSession (sessionId userId : string) (aggregates : SessionAggregates)
    (now : Timestamp) (db : Db) : Session :=
  match Db.sessions db !! sessionId with
  | Some session => updateSession session aggregates (Session.version session + 1) now
  | None => newSession userId aggregates now
  end.



(** The events of the test "should sort events by timestamp before computing". *)
Definition testEvent (eventId : string) (timestamp : Z)
    (duration distance calories steps : Z) : Event :=
  {| Event.eventId := eventId;
     Event.timestamp := timestamp;
     Event.duration := Some (Qc_of_Z duration);
     Event.distance := Some (Qc_of_Z distance);
     Event.calories := Some (Qc_of_Z calories);
     Event.steps := Some (Qc_of_Z steps);
     Event.sequenceNumber := None;
     Event.ingestedAt := 1000;
     Event.version := 1 |}.

Definition e1 : Event := testEvent "e1" 100 10 100 10 100.

(** The out-of-order scenario: A (t = 0, distance 100), C (t = 2000,
    distance 300) and B (t = 1000, distance 200), submitted as A, C, B. *)
Definition eventA : Event := testEvent "event-a" 0 10 100 10 100.
Definition eventB : Event := testEvent "event-b" 1000 20 200 20 200.
Definition eventC : Event := testEvent "event-c" 2000 30 300 30 300.

Definition submit (event : Event) (now : Timestamp) : Submission :=
  Submission.mk "user-1" event now reliable.



(** A session holding [e1], as the coordinator leaves it. *)
Definition dbWithE1 : Db :=
  default emptyDb (submitAll "session-1" [Submission.mk "user-1" e1 1000 reliable] emptyDb).

(** A ledger holding one completed record for ["key-1"], valid until 90000000. *)
Definition cachedSuccess : IngestResponse :=
  IngestResponse.mk (Some true) None None None.

Definition dbCompleted : Db :=
  cacheResponse "key-1" "session-1" cachedSuccess 3600000 emptyDb.

(** A measure is absent or lies between 0 and [maximum], bounds included. *)
Definition withinRange (value : option Qc) (maximum : Z) : Prop :=
  match value with
  | None => True
  | Some x => (0 ≤ x)%Qc ∧ (x ≤ Qc_of_Z maximum)%Qc
  end.

(** A step count is absent or a whole number. *)
Definition wholeNumber (value : option Qc) : Prop :=
  match value with
  | None => True
  | Some x => isInteger x = true
  end.

(** The payload of the validator test "should accept valid payload", read
    at the instant [1700000000000], with a given distance. *)
Definition payloadWithDistance (distance : Z) : RawEventPayload :=
  {| RawEventPayload.eventId := Some "event-1";
     RawEventPayload.sessionId := Some "session-1";
     RawEventPayload.userId := Some "user-1";
     RawEventPayload.timestamp := Some (TsNumber 1700000000000);
     RawEventPayload.duration := Some (Qc_of_Z 60);
     RawEventPayload.distance := Some (Qc_of_Z distance);
     RawEventPayload.calories := Some (Qc_of_Z 50);
     RawEventPayload.steps := Some (Qc_of_Z 1000);
     RawEventPayload.sequenceNumber := None;
     RawEventPayload.idempotencyKey := None |}.

(** A string the store takes as the id of a document of a collection: not
    empty, without ["/"], neither ["."] nor [".."], not of the reserved form
    [__.*__], and of at most 1500 bytes. *)
Definition validDocumentId (id : string) : bool :=
  negb (String.eqb id "") && negb (includes "/" id)
  && negb (String.eqb id ".") && negb (String.eqb id "..")
  && negb (String.prefix "__" id && String.prefix "__" (String.rev id)
           && bool_decide (4 ≤ String.length id)%nat)
  && bool_decide (String.length id ≤ 1500)%nat.

(** The idempotency key of a request and the session id and event id of its
    payload are ids of documents. *)
Definition storableIds (key : string) (payload : RawEventPayload) : bool :=
  validDocumentId key
  && from_option validDocumentId false (RawEventPayload.sessionId payload)
  && from_option validDocumentId false (RawEventPayload.eventId payload).

(** An optional string that is [undefined] or [""], the falsy values. *)
Definition absentOrEmpty (s : option string) : Prop := s = None ∨ s = Some "".

(** A request without key header whose body carries only [eventId: ""]. *)
Definition emptyEventIdRequest : IngestRequest :=
  {| IngestRequest.idempotencyKeyHeader := None;
     IngestRequest.body :=
       {| RawEventPayload.eventId := Some "";
          RawEventPayload.sessionId := None;
          RawEventPayload.userId := None;
          RawEventPayload.timestamp := None;
          RawEventPayload.duration := None;
          RawEventPayload.distance := None;
          RawEventPayload.calories := None;
          RawEventPayload.steps := None;
          RawEventPayload.sequenceNumber := None;
          RawEventPayload.idempotencyKey := None |} |}.

(** A valid request sent with the header [idempotency-key: key-1]. *)
Definition retryRequest : IngestRequest :=
  {| IngestRequest.idempotencyKeyHeader := Some "key-1";
     IngestRequest.body := payloadWithDistance 100 |}.

(** The request of the README: the body shown there, sent with the header
    [idempotency-key: key-1]; the string of its timestamp is the instant
    [1705314600000]. *)
Definition readmePayload : RawEventPayload :=
  {| RawEventPayload.eventId := Some "event-123";
     RawEventPayload.sessionId := Some "session-456";
     RawEventPayload.userId := Some "user-789";
     RawEventPayload.timestamp :=
       Some (TsString "2024-01-15T10:30:00Z" (Some 1705314600000));
     RawEventPayload.duration := Some (Qc_of_Z 60);
     RawEventPayload.distance := Some (Qc_of_Z 100);
     RawEventPayload.calories := Some (Qc_of_Z 50);
     RawEventPayload.steps := Some (Qc_of_Z 1000);
     RawEventPayload.sequenceNumber := Some (Qc_of_Z 1);
     RawEventPayload.idempotencyKey := None |}.

Definition readmeRequest : IngestRequest :=
  {| IngestRequest.idempotencyKeyHeader := Some "key-1";
     IngestRequest.body := readmePayload |}.

(** The aggregates shown in the README as the answer to that request. *)
Definition readmeAggregates : AggregateView.t :=
  {| AggregateView.totalDuration := Qc_of_Z 60;
     AggregateView.totalDistance := Qc_of_Z 100;
     AggregateView.totalCalories := Qc_of_Z 50;
     AggregateView.totalSteps := Qc_of_Z 1000;
     AggregateView.eventCount := 1 |}.

(** A store that is down: every attempt fails, and not with a conflict. *)
Definition unavailable : nat → TxVerdict :=
  λ _, Fails "14 UNAVAILABLE: No connection established".

(** ** helpers/dedupeHelper.ts *)

(** [doc.exists] for the event document of a session. *)
Definition isEventDuplicate (sessionId eventId : string) (db : Db) : bool :=
  bool_decide (is_Some (eventCollection sessionId db !! eventId)).

(** [Array.prototype.findIndex]: the index of the first element that
    satisfies [predicate], [-1] when there is none. *)
Fixpoint findIndexFrom {A : Type} (index : Z) (predicate : A → bool) (l : list A) : Z :=
  match l with
  | [] => -1
  | x :: l' => if predicate x then index else findIndexFrom (index + 1) predicate l'
  end.

Definition findIndex {A : Type} (predicate : A → bool) (l : list A) : Z :=
  findIndexFrom 0 predicate l.

Module OrderValidationResult.
Record t : Type := mk {
    isOutOfOrder : bool;
    expectedSequence : option Z;
    actualSequence : option Z;
}.
End OrderValidationResult.
Abbreviation OrderValidationResult := OrderValidationResult.t.

Definition validateEventOrder (existingEvents : list Event) (newEvent : Event)
    : Completion OrderValidationResult :=
  if bool_decide (length existingEvents = 0%nat) then
    Normal (OrderValidationResult.mk false None None)
  else
    let sorted := array_sort byTimestamp existingEvents in
    match sorted !! (length sorted - 1)%nat with
    | Some lastEvent =>
        let isOutOfOrder :=
          bool_decide (Event.timestamp newEvent < Event.timestamp lastEvent) in
        Normal
          {| OrderValidationResult.isOutOfOrder := isOutOfOrder;
             OrderValidationResult.expectedSequence :=
               Some (Z.of_nat (length sorted) + 1);
             OrderValidationResult.actualSequence :=
               Some (findIndex
                       (λ e, bool_decide (Event.timestamp newEvent < Event.timestamp e))
                       sorted + 1) |}
    | None => Throw "Cannot read properties of undefined (reading 'timestamp')"
    end.

(** ** Further reference notions *)

(** The event object the handler builds in step 6. *)
Definition eventOf (normalized : NormalizedEventPayload) (now : Timestamp) : Event :=
  {| Event.eventId := NormalizedEventPayload.eventId normalized;
     Event.timestamp := NormalizedEventPayload.timestamp normalized;
     Event.duration := Some (NormalizedEventPayload.duration normalized);
     Event.distance := Some (NormalizedEventPayload.distance normalized);
     Event.calories := Some (NormalizedEventPayload.calories normalized);
     Event.steps := Some (NormalizedEventPayload.steps normalized);
     Event.sequenceNumber := NormalizedEventPayload.sequenceNumber normalized;
     Event.ingestedAt := now;
     Event.version := 1 |}.

(** The store makes a call of the coordinator throw [message]: some attempt
    fails with [message], which is the last attempt or not a conflict, every
    earlier attempt having failed with a conflict. *)
Definition eventuallyFails (store : nat → TxVerdict) (message : string) : Prop :=
  ∃ n : nat, (n < MAX_TRANSACTION_RETRIES)%nat ∧ store n = Fails message ∧
    (n = (MAX_TRANSACTION_RETRIES - 1)%nat ∨ includes "transaction" message = false) ∧
    ∀ i : nat, (i < n)%nat → ∃ mi, store i = Fails mi ∧
                                   includes "transaction" mi = true.

(** Several steps of the database. *)
Definition steps : Db → Db → Prop := rtc step.

(** How many of [events] are not later than [t]. *)
Definition notLaterCount (t : Timestamp) (events : list Event) : nat :=
  length (filter (λ e, Event.timestamp e ≤ t) events).

(** A raw payload satisfies every check of [validatePayload] at [now]. *)
Definition wellFormed (payload : RawEventPayload) (now : Timestamp) : Prop :=
  truthy (RawEventPayload.eventId payload) = true ∧
  truthy (RawEventPayload.sessionId payload) = true ∧
  truthy (RawEventPayload.userId payload) = true ∧
  truthyTimestamp (RawEventPayload.timestamp payload) = true ∧
  (∃ t, normalizeTimestamp (RawEventPayload.timestamp payload) = Normal t ∧
        t - now ≤ 3600 * 1000 ∧ now - t ≤ 2592000 * 1000) ∧
  withinRange (RawEventPayload.distance payload) 100000 ∧
  withinRange (RawEventPayload.calories payload) 10000 ∧
  (withinRange (RawEventPayload.steps payload) 100000 ∧
   wholeNumber (RawEventPayload.steps payload)) ∧
  withinRange (RawEventPayload.duration payload) 86400.

(** * Properties *)

(** ** The stable sort *)

Section ArraySortFacts.
Context {A : Type} (compareFn : A → A → Z).

Lemma sort_insert_Permutation (x : A) (l : list A) :
  sort_insert compareFn x l ≡ₚ x :: l.
Proof.
  induction l as [|y l IH]; simpl; [done|].
  case_bool_decide; [done|].
  rewrite IH. apply Permutation_swap.
Qed.

Lemma array_sort_Permutation (l : list A) : array_sort compareFn l ≡ₚ l.
Proof.
  induction l as [|x l IH]; simpl; [done|].
  by rewrite sort_insert_Permutation, IH.
Qed.

Lemma array_sort_length (l : list A) :
  length (array_sort compareFn l) = length l.
Proof. by rewrite array_sort_Permutation. Qed.
End ArraySortFacts.

Lemma sort_insert_byTimestamp_sorted (x : Event) (l : list Event) :
  StronglySorted timestampLe l →
  StronglySorted timestampLe (sort_insert byTimestamp x l).
Proof.
  induction 1 as [|y l Hl IH Hy]; simpl.
  - repeat constructor.
  - case_bool_decide as Hxy.
    + constructor; [by constructor|].
      assert (timestampLe x y) by (unfold timestampLe, byTimestamp in *; lia).
      constructor; [done|].
      eapply Forall_impl; [exact Hy|].
      unfold timestampLe in *. intros z ?. lia.
    + constructor; [done|].
      rewrite sort_insert_Permutation. constructor; [|done].
      unfold timestampLe, byTimestamp in *. lia.
Qed.

Lemma array_sort_byTimestamp_sorted (l : list Event) :
  StronglySorted timestampLe (array_sort byTimestamp l).
Proof.
  induction l as [|x l IH]; simpl; [constructor|].
  by apply sort_insert_byTimestamp_sorted.
Qed.

(** ** Sums *)

Lemma sum_measureTotal (field : Event → option Qc) (events : list Event) :
  sum (map field events) = measureTotal field events.
Proof.
  unfold sum, measureTotal.
  assert (∀ (l : list Event) (acc : Qc),
    fold_left (λ acc val, (acc + orZero val)%Qc) (map field l) acc
    = (acc + foldr (λ e acc, (orZero (field e) + acc)%Qc) 0%Qc l)%Qc) as Hgen.
  { induction l as [|e l IH]; intros acc; simpl.
    - by rewrite Qcplus_0_r.
    - by rewrite IH, Qcplus_assoc. }
  by rewrite Hgen, Qcplus_0_l.
Qed.

Lemma measureTotal_Permutation (field : Event → option Qc) (l1 l2 : list Event) :
  l1 ≡ₚ l2 → measureTotal field l1 = measureTotal field l2.
Proof.
  unfold measureTotal.
  induction 1 as [|x l1 l2 _ IH|x y l|l1 l2 l3 _ IH1 _ IH2]; simpl.
  - done.
  - by rewrite IH.
  - rewrite !Qcplus_assoc. f_equal. apply Qcplus_comm.
  - by rewrite IH1.
Qed.

(** ** Earliest and latest timestamps *)

Lemma isEarliest_Permutation (t : Timestamp) (l1 l2 : list Event) :
  l1 ≡ₚ l2 → isEarliest t l1 → isEarliest t l2.
Proof. intros Hp [Hin Hall]. split; [by rewrite <-Hp | by rewrite <-Hp]. Qed.

Lemma isLatest_Permutation (t : Timestamp) (l1 l2 : list Event) :
  l1 ≡ₚ l2 → isLatest t l1 → isLatest t l2.
Proof. intros Hp [Hin Hall]. split; [by rewrite <-Hp | by rewrite <-Hp]. Qed.



Lemma sorted_head_isEarliest (first : Event) (sorted : list Event) :
  StronglySorted timestampLe sorted → sorted !! 0%nat = Some first →
  isEarliest (Event.timestamp first) sorted.
Proof.
  intros Hs Hfirst. destruct sorted as [|e l]; [done|].
  simpl in Hfirst. injection Hfirst as ->.
  apply StronglySorted_cons in Hs as [Hall _].
  split; [simpl; left|].
  constructor; [lia|done].
Qed.

Lemma sorted_last_isLatest (final : Event) (sorted : list Event) :
  StronglySorted timestampLe sorted →
  sorted !! (length sorted - 1)%nat = Some final →
  isLatest (Event.timestamp final) sorted.
Proof.
  intros Hs Hfinal.
  destruct (decide (sorted = [])) as [->|Hne]; [done|].
  destruct (exists_last Hne) as (l & e & ->).
  rewrite length_app in Hfinal. simpl in Hfinal.
  replace (length l + 1 - 1)%nat with (length l + 0)%nat in Hfinal by lia.
  rewrite lookup_app_r in Hfinal by lia.
  replace (length l + 0 - length l)%nat with 0%nat in Hfinal by lia.
  simpl in Hfinal. injection Hfinal as ->.
  apply StronglySorted_app in Hs as (Hle & _ & _).
  split.
  - rewrite map_app. apply elem_of_app. right. simpl. left.
  - apply Forall_app. split.
    + apply Forall_forall. intros x Hx. apply (Hle x final Hx). left.
    + constructor; [lia|constructor].
Qed.

(** ** The aggregate engine *)

Lemma computeAggregates_unfold (events : list Event) :
  events ≠ [] →
  ∃ first final,
    array_sort byTimestamp events !! 0%nat = Some first ∧
    last (array_sort byTimestamp events) = Some final ∧
    computeAggregates events =
      Normal {|
        SessionAggregates.startTime := Event.timestamp first;
        SessionAggregates.endTime := Event.timestamp final;
        SessionAggregates.totalDuration := measureTotal Event.duration events;
        SessionAggregates.totalDistance := measureTotal Event.distance events;
        SessionAggregates.totalCalories := measureTotal Event.calories events;
        SessionAggregates.totalSteps := measureTotal Event.steps events;
        SessionAggregates.eventCount := length events;
        SessionAggregates.lastEventTime := Event.timestamp final |}.
Proof.
  intros Hne. unfold computeAggregates.
  rewrite bool_decide_eq_false_2 by (by destruct events).
  pose proof (array_sort_Permutation byTimestamp events) as Hperm.
  pose proof (array_sort_length byTimestamp events) as Hlen.
  assert (0 < length (array_sort byTimestamp events))%nat as Hpos
    by (rewrite Hlen; destruct events; [done|simpl; lia]).
  destruct (lookup_lt_is_Some_2 (array_sort byTimestamp events) 0 Hpos)
    as [first Hfirst].
  destruct (lookup_lt_is_Some_2 (array_sort byTimestamp events)
              (length (array_sort byTimestamp events) - 1)) as [final Hfinal];
    [lia|].
  exists first, final. rewrite Hfirst, Hfinal.
  split; [done|]. split.
  { rewrite last_lookup.
    by replace (Nat.pred (length (array_sort byTimestamp events)))
      with (length (array_sort byTimestamp events) - 1)%nat by lia. }
  rewrite !sum_measureTotal, Hlen.
  by rewrite !(measureTotal_Permutation _ _ _ Hperm).
Qed.

Lemma computeAggregates_summarises (events : list Event) :
  events ≠ [] →
  ∃ agg, computeAggregates events = Normal agg ∧ summarises agg events.
Proof.
  intros Hne.
  destruct (computeAggregates_unfold events Hne) as (first & final & Hf & Hl & ->).
  eexists. split; [done|].
  pose proof (array_sort_Permutation byTimestamp events) as Hperm.
  pose proof (array_sort_byTimestamp_sorted events) as Hsorted.
  split; simpl; try done.
  - eapply isEarliest_Permutation; [exact Hperm|].
    by apply sorted_head_isEarliest.
  - eapply isLatest_Permutation; [exact Hperm|].
    apply sorted_last_isLatest; [done|].
    rewrite last_lookup in Hl.
    by replace (length (array_sort byTimestamp events) - 1)%nat
      with (Nat.pred (length (array_sort byTimestamp events))) by lia.
Qed.

Lemma summarises_Permutation (agg : SessionAggregates) (l1 l2 : list Event) :
  l1 ≡ₚ l2 → summarises agg l1 → summarises agg l2.
Proof.
  intros Hp [].
  split; rewrite <-?(measureTotal_Permutation _ _ _ Hp); try done.
  - by rewrite <-Hp.
  - by eapply isEarliest_Permutation.
  - by eapply isLatest_Permutation.
Qed.



(** C8. [computeAggregates] on an empty collection throws the empty-input
    error: whenever the input has zero events the result is that error and
    no aggregate. *)
Theorem computeAggregates_empty (events : list Event) :
  length events = 0%nat →
  computeAggregates events = Throw "Cannot compute aggregates from empty event list" ∧
  ∀ agg, computeAggregates events ≠ Normal agg.
Proof.
  intros Hlen. unfold computeAggregates.
  rewrite bool_decide_eq_true_2 by done. split; [done|]. discriminate.
Qed.

Lemma computeAggregates_empty_witness :
  computeAggregates [] = Throw "Cannot compute aggregates from empty event list".
Proof. apply (computeAggregates_empty []). reflexivity. Defined.

(** ** The transaction body *)


Lemma eventCollection_setEvent (sessionId : string) (event : Event) (db : Db) :
  eventCollection sessionId (setEvent sessionId event db)
  = <[Event.eventId event := event]> (eventCollection sessionId db).
Proof. unfold eventCollection, setEvent. simpl. by rewrite lookup_insert_eq. Qed.

Lemma eventCollection_setEvent_ne (sessionId other : string) (event : Event) (db : Db) :
  sessionId ≠ other →
  eventCollection other (setEvent sessionId event db) = eventCollection other db.
Proof.
  intros Hne. unfold eventCollection, setEvent. simpl.
  by rewrite lookup_insert_ne.
Qed.

Lemma transactionBody_duplicate (sessionId userId : string) (event existing : Event)
    (now : Timestamp) (db : Db) :
  eventCollection sessionId db !! Event.eventId event = Some existing →
  transactionBody sessionId userId event now db
  = Normal (UpsertResult.mk duplicate
              (sessionAggregates <$> Db.sessions db !! sessionId), db).
Proof.
  intros Hex. unfold transactionBody. rewrite Hex.
  by destruct (Db.sessions db !! sessionId).
Qed.

Lemma transactionBody_created (sessionId userId : string) (event : Event)
    (now : Timestamp) (db : Db) :
  eventCollection sessionId db !! Event.eventId event = None →
  ∃ aggregates,
    summarises aggregates (event :: docs (eventCollection sessionId db)) ∧
    transactionBody sessionId userId event now db
    = Normal (UpsertResult.mk created (Some aggregates),
              setSession sessionId (writtenSession sessionId userId aggregates now db)
                (setEvent sessionId event db)).
Proof.
  intros Hnone. unfold transactionBody, writtenSession. rewrite Hnone.
  set (existingEvents := array_sort byTimestamp (docs (eventCollection sessionId db))).
  destruct (computeAggregates_summarises (existingEvents ++ [event]))
    as (aggregates & -> & Hsum); [by destruct existingEvents|].
  exists aggregates. split.
  - eapply summarises_Permutation; [|exact Hsum].
    rewrite <-Permutation_cons_append. constructor.
    apply array_sort_Permutation.
  - by destruct (Db.sessions db !! sessionId).
Qed.

Lemma transactionBody_returns (sessionId userId : string) (event : Event)
    (now : Timestamp) (db : Db) :
  ∃ result db', transactionBody sessionId userId event now db = Normal (result, db').
Proof.
  destruct (eventCollection sessionId db !! Event.eventId event) as [existing|] eqn:Hev.
  - rewrite (transactionBody_duplicate _ _ _ _ _ _ Hev). eauto.
  - destruct (transactionBody_created sessionId userId event now db Hev)
      as (aggregates & _ & ->). eauto.
Qed.

(** ** The retry loop *)

Lemma runTransaction_Commits {R : Type} (f : Db → Completion (R * Db)) (db : Db) :
  runTransaction Commits f db = f db.
Proof. unfold runTransaction. by destruct (f db). Qed.

Lemma runTransaction_Fails (message : string) (sessionId userId : string)
    (event : Event) (now : Timestamp) (db : Db) :
  runTransaction (Fails message) (transactionBody sessionId userId event now) db
  = Throw message.
Proof.
  unfold runTransaction.
  by destruct (transactionBody_returns sessionId userId event now db) as (r & db' & ->).
Qed.

(** One iteration of the loop, by the verdict of the store. *)
Lemma retryLoop_step (remaining attempt : nat) (lastError : option string)
    (delays : list Z) (store : nat → TxVerdict) (sessionId userId : string)
    (event : Event) (now : Timestamp) (db : Db) :
  retryLoop (S remaining) attempt lastError delays store sessionId userId event now db
  = match store attempt with
    | Commits =>
        UpsertRun.mk (transactionBody sessionId userId event now db) (S attempt) delays
    | Fails message =>
        if bool_decide (attempt < MAX_TRANSACTION_RETRIES - 1)%nat
           && includes "transaction" message
        then retryLoop remaining (S attempt) (Some message)
               (delays ++ [2 ^ Z.of_nat attempt * 100]) store
               sessionId userId event now db
        else UpsertRun.mk (Throw message) (S attempt) delays
    end.
Proof.
  simpl. destruct (store attempt) as [|message].
  - rewrite runTransaction_Commits.
    by destruct (transactionBody_returns sessionId userId event now db)
      as (r & db' & ->).
  - by rewrite runTransaction_Fails.
Qed.

Lemma upsert_eventuallyCommits (store : nat → TxVerdict) (sessionId userId : string)
    (event : Event) (now : Timestamp) (db : Db) :
  eventuallyCommits store →
  UpsertRun.outcome (upsertEventAndUpdateSession store sessionId userId event now db)
  = transactionBody sessionId userId event now db.
Proof.
  intros (n & Hn & Hcommit & Hbefore).
  unfold upsertEventAndUpdateSession, MAX_TRANSACTION_RETRIES in *.
  destruct n as [|[|[|n]]]; [| | |lia].
  - by rewrite retryLoop_step, Hcommit.
  - destruct (Hbefore 0%nat) as (m0 & H0 & Hc0); [lia|].
    by rewrite retryLoop_step, H0, Hc0, retryLoop_step, Hcommit.
  - destruct (Hbefore 0%nat) as (m0 & H0 & Hc0); [lia|].
    destruct (Hbefore 1%nat) as (m1 & H1 & Hc1); [lia|].
    by rewrite retryLoop_step, H0, Hc0, retryLoop_step, H1, Hc1,
      retryLoop_step, Hcommit.
Qed.

Lemma upsert_outcome (store : nat → TxVerdict) (sessionId userId : string)
    (event : Event) (now : Timestamp) (db : Db) :
  UpsertRun.outcome (upsertEventAndUpdateSession store sessionId userId event now db)
  = transactionBody sessionId userId event now db
  ∨ ∃ message,
      UpsertRun.outcome (upsertEventAndUpdateSession store sessionId userId event now db)
      = Throw message.
Proof.
  unfold upsertEventAndUpdateSession, MAX_TRANSACTION_RETRIES.
  rewrite retryLoop_step.
  destruct (store 0%nat) as [|m0]; [by left|].
  destruct (_ && _); [|right; by eexists].
  rewrite retryLoop_step.
  destruct (store 1%nat) as [|m1]; [by left|].
  destruct (_ && _); [|right; by eexists].
  rewrite retryLoop_step.
  destruct (store 2%nat) as [|m2]; [by left|].
  simpl. right; by eexists.
Qed.

(** ** The handler's event and response objects *)

Lemma retryLoop_retryLoopWith (remaining attempt : nat) (lastError : option string)
    (delays : list Z) (store : nat → TxVerdict) (sessionId userId : string)
    (event : Event) (now : Timestamp) (db : Db) :
  retryLoop remaining attempt lastError delays store sessionId userId event now db
  = retryLoopWith (transactionBody sessionId userId event now)
      remaining attempt lastError delays store db.
Proof.
  revert attempt lastError delays.
  induction remaining as [|remaining IH]; intros attempt lastError delays; simpl; [done|].
  destruct (runTransaction _ _ _) as [result|message]; [done|].
  destruct (_ && _); [apply IH|done].
Qed.

Lemma retryLoopWith_ext (f g : Db → Completion (UpsertResult * Db))
    (remaining attempt : nat) (lastError : option string)
    (delays : list Z) (store : nat → TxVerdict) (db : Db) :
  f db = g db →
  retryLoopWith f remaining attempt lastError delays store db
  = retryLoopWith g remaining attempt lastError delays store db.
Proof.
  intros Heq. revert attempt lastError delays.
  induction remaining as [|remaining IH]; intros attempt lastError delays; simpl; [done|].
  unfold runTransaction. rewrite Heq.
  destruct (g db) as [result|message].
  - destruct (store attempt) as [|message]; [done|].
    destruct (_ && _); [apply IH|done].
  - destruct (_ && _); [apply IH|done].
Qed.

(** What step 7 gets: the refusal of the event object when the event is new
    and the payload has no sequence number, and otherwise what the
    coordinator gives on the event. *)
Lemma upsertEventObject_outcome (store : nat → TxVerdict) (sessionId userId : string)
    (event : Event) (now : Timestamp) (db : Db) :
  UpsertRun.outcome (upsertEventObject store sessionId userId event now db)
  = match eventCollection sessionId db !! Event.eventId event,
          Event.sequenceNumber event with
    | None, None => Throw (undefinedValue "sequenceNumber")
    | _, _ =>
        UpsertRun.outcome
          (upsertEventAndUpdateSession store sessionId userId event now db)
    end.
Proof.
  unfold upsertEventObject, upsertEventAndUpdateSession.
  rewrite retryLoop_retryLoopWith.
  destruct (eventCollection sessionId db !! Event.eventId event) as [existing|] eqn:Hev.
  - f_equal. apply retryLoopWith_ext. unfold transactionBodyObject. by rewrite Hev.
  - destruct (Event.sequenceNumber event) as [n|] eqn:Hseq.
    + f_equal. apply retryLoopWith_ext. unfold transactionBodyObject.
      by rewrite Hev, Hseq.
    + unfold MAX_TRANSACTION_RETRIES. simpl. unfold runTransaction at 1.
      unfold transactionBodyObject at 1. rewrite Hev, Hseq.
      replace (includes "transaction" (undefinedValue "sequenceNumber")) with false
        by (vm_compute; reflexivity).
      reflexivity.
Qed.

Lemma upsertEventObject_returns (store : nat → TxVerdict) (sessionId userId : string)
    (event : Event) (now : Timestamp) (db : Db) (result : UpsertResult) (db' : Db) :
  UpsertRun.outcome (upsertEventObject store sessionId userId event now db)
  = Normal (result, db') →
  UpsertRun.outcome (upsertEventAndUpdateSession store sessionId userId event now db)
  = Normal (result, db').
Proof.
  rewrite upsertEventObject_outcome.
  destruct (eventCollection sessionId db !! Event.eventId event);
    destruct (Event.sequenceNumber event); done.
Qed.

Arguments retryLoopWith : simpl never.
Arguments upsertEventObject : simpl never.

Lemma eventuallyCommits_twoConflicts : eventuallyCommits twoConflicts.
Proof.
  exists 2%nat. unfold MAX_TRANSACTION_RETRIES. split; [lia|]. split; [done|].
  intros [|[|i]] Hi; [by eexists|by eexists|lia].
Qed.


Arguments retryLoop : simpl never.

Ltac loop_step :=
  rewrite retryLoop_step;
  repeat match goal with
  | H : ?store ?n = _ |- context [?store ?n] => rewrite H
  | H : includes "transaction" ?m = _ |- context [includes "transaction" ?m] =>
      rewrite H
  end; simpl.



(** ** Duplicate event ids *)

(** C3. When an event with the incoming [eventId] is already stored under
    the session, the transaction answers [duplicate] and writes nothing:
    whenever the coordinator returns, the database it leaves is the one it
    found, so the event collection, the session record and its [eventCount]
    are unchanged.  The aggregates returned are those of the stored session
    record, field by field ([endTime] being the record's [endTime], or its
    [startTime] when the record has none), and there is no aggregate when the
    session document is absent.  The coordinator does return as soon as the
    store lets an attempt commit. *)
Theorem upsert_duplicate_no_write (store : nat → TxVerdict) (sessionId userId : string)
    (event existing : Event) (now : Timestamp) (db : Db) :
  eventCollection sessionId db !! Event.eventId event = Some existing →
  let run := upsertEventAndUpdateSession store sessionId userId event now db in
  let current (session : Session) : SessionAggregates :=
    {| SessionAggregates.startTime := Session.startTime session;
       SessionAggregates.endTime :=
         match Session.endTime session with
         | Some endTime => endTime
         | None => Session.startTime session
         end;
       SessionAggregates.totalDuration := Session.totalDuration session;
       SessionAggregates.totalDistance := Session.totalDistance session;
       SessionAggregates.totalCalories := Session.totalCalories session;
       SessionAggregates.totalSteps := Session.totalSteps session;
       SessionAggregates.eventCount := Session.eventCount session;
       SessionAggregates.lastEventTime := Session.lastEventTime session |} in
  (∀ result db',
     UpsertRun.outcome run = Normal (result, db') →
     UpsertResult.status result = duplicate ∧
     db' = db ∧
     eventCollection sessionId db' = eventCollection sessionId db ∧
     Db.sessions db' !! sessionId = Db.sessions db !! sessionId ∧
     (∀ session, Db.sessions db !! sessionId = Some session →
        UpsertResult.session result = Some (current session) ∧
        Session.eventCount <$> Db.sessions db' !! sessionId
        = Some (Session.eventCount session)) ∧
     (Db.sessions db !! sessionId = None → UpsertResult.session result = None)) ∧
  (eventuallyCommits store →
   UpsertRun.outcome run
   = Normal (UpsertResult.mk duplicate (current <$> Db.sessions db !! sessionId), db)).
Proof.
  intros Hex run current. subst run.
  pose proof (transactionBody_duplicate sessionId userId event existing now db Hex)
    as Hbody.
  assert (∀ session, sessionAggregates session = current session) as Hcurrent.
  { intros session. unfold sessionAggregates, current.
    by destruct (Session.endTime session). }
  assert (sessionAggregates <$> Db.sessions db !! sessionId
          = current <$> Db.sessions db !! sessionId) as Hsame.
  { destruct (Db.sessions db !! sessionId) as [session|]; [|done].
    simpl. by rewrite Hcurrent. }
  rewrite Hsame in Hbody.
  split.
  - intros result db' Hout.
    destruct (upsert_outcome store sessionId userId event now db) as [Heq|[m Heq]];
      rewrite Heq in Hout; [|discriminate].
    rewrite Hbody in Hout. injection Hout as <- <-. simpl.
    split_and!; try done.
    + by intros session ->.
    + by intros ->.
  - intros Hcommit. by rewrite upsert_eventuallyCommits.
Qed.

Lemma upsert_duplicate_no_write_witness :
  ∃ aggregates,
    UpsertRun.outcome
      (upsertEventAndUpdateSession reliable "session-1" "user-1" e1 2000 dbWithE1)
    = Normal (UpsertResult.mk duplicate (Some aggregates), dbWithE1) ∧
    SessionAggregates.eventCount aggregates = 1%nat ∧
    SessionAggregates.startTime aggregates = 100 ∧
    SessionAggregates.endTime aggregates = 100 ∧
    SessionAggregates.totalDistance aggregates = Qc_of_Z 100.
Proof.
  assert (eventCollection "session-1" dbWithE1 !! Event.eventId e1 = Some e1) as Hex
    by (vm_compute; reflexivity).
  destruct (upsert_duplicate_no_write reliable "session-1" "user-1" e1 e1 2000
              dbWithE1 Hex) as (_ & Hreturns).
  assert (∃ session, Db.sessions dbWithE1 !! "session-1" = Some session ∧
            Session.eventCount session = 1%nat ∧
            Session.startTime session = 100 ∧
            Session.endTime session = Some 100 ∧
            Session.totalDistance session = Qc_of_Z 100)
    as (session & Hsession & Hcount & Hstart & Hend & Hdistance).
  { eexists. split; [vm_compute; reflexivity|].
    split_and!; try reflexivity. apply Qc_is_canon. reflexivity. }
  rewrite Hsession in Hreturns. simpl in Hreturns.
  eexists. split.
  - apply Hreturns. exists 0%nat. unfold MAX_TRANSACTION_RETRIES.
    split; [lia|]. split; [reflexivity|]. intros i Hi; lia.
  - simpl. rewrite Hend. by split_and!.
Defined.

(** ** The session record follows the stored events *)



Lemma writtenSession_aggregates (sessionId userId : string)
    (aggregates : SessionAggregates) (now : Timestamp) (db : Db) :
  sessionAggregates (writtenSession sessionId userId aggregates now db) = aggregates.
Proof.
  unfold writtenSession.
  destruct (Db.sessions db !! sessionId); by destruct aggregates.
Qed.

(** The effect of a call of the coordinator that returns. *)
Lemma upsert_returns_cases (store : nat → TxVerdict) (sessionId userId : string)
    (event : Event) (now : Timestamp) (db : Db) (result : UpsertResult) (db' : Db) :
  UpsertRun.outcome (upsertEventAndUpdateSession store sessionId userId event now db)
  = Normal (result, db') →
  (is_Some (eventCollection sessionId db !! Event.eventId event) ∧
   result = UpsertResult.mk duplicate (sessionAggregates <$> Db.sessions db !! sessionId) ∧
   db' = db)
  ∨ (eventCollection sessionId db !! Event.eventId event = None ∧
     ∃ aggregates,
       summarises aggregates (event :: storedEvents sessionId db) ∧
       result = UpsertResult.mk created (Some aggregates) ∧
       db' = setSession sessionId (writtenSession sessionId userId aggregates now db)
               (setEvent sessionId event db)).
Proof.
  intros Hout.
  destruct (upsert_outcome store sessionId userId event now db) as [Heq|[m Heq]];
    rewrite Heq in Hout; [|discriminate].
  destruct (eventCollection sessionId db !! Event.eventId event) as [existing|] eqn:Hev.
  - left. rewrite (transactionBody_duplicate _ _ _ _ _ _ Hev) in Hout.
    injection Hout as <- <-. eauto.
  - right. split; [done|].
    destruct (transactionBody_created sessionId userId event now db Hev)
      as (aggregates & Hsum & Hbody).
    rewrite Hbody in Hout. injection Hout as <- <-. eauto.
Qed.






(** A run of the handler is a sequence of steps of the database. *)
Lemma handleError_cases (key sessionId message : string) (now : Timestamp) (db : Db) :
  (handleError (Some key) (Some sessionId) message now db).2 = db ∨
  (handleError (Some key) (Some sessionId) message now db).2
  = markFailed key sessionId (ErrorObject message) now db.
Proof.
  unfold handleError.
  destruct (truthy (Some key) && truthy (Some sessionId)); auto.
Qed.

Lemma handleError_steps (key sessionId message : string) (now : Timestamp) (db : Db) :
  rtc step db (handleError (Some key) (Some sessionId) message now db).2.
Proof.
  destruct (handleError_cases key sessionId message now db) as [->| ->]; [done|].
  apply rtc_once, step_markFailed.
Qed.

Lemma cacheResponseObject_steps (key sessionId : string) (response : IngestResponse)
    (now : Timestamp) (db : Db) :
  rtc step db
    (match cacheResponseObject key sessionId response now db with
     | Throw message => handleError (Some key) (Some sessionId) message now db
     | Normal db4 => (HttpResponse.mk 200 response, db4)
     end).2.
Proof.
  unfold cacheResponseObject.
  destruct (IngestResponse.session response).
  - apply rtc_once, step_cacheResponse.
  - apply handleError_steps.
Qed.

Lemma validateAndUpsert_steps (key : string) (req : IngestRequest)
    (now : Timestamp) (store : nat → TxVerdict) (db1 : Db) :
  rtc step db1 (validateAndUpsert key req now store db1).2.
Proof.
  unfold validateAndUpsert.
  destruct (ValidationResult.isValid _); cbn [negb]; [|done].
  destruct (normalizePayload _) as [normalized|m]; [|done].
  cbv zeta.
  eapply rtc_l; [apply (step_markProcessing key
                          (NormalizedEventPayload.sessionId normalized) now db1)|].
  destruct (UpsertRun.outcome _) as [[result db3]|m] eqn:Hout.
  - apply upsertEventObject_returns in Hout.
    eapply rtc_l; [exact (step_upsert _ _ _ _ _ _ _ _ Hout)|].
    destruct (UpsertResult.status result); apply cacheResponseObject_steps.
  - apply handleError_steps.
Qed.

Lemma ingestSessionEvent_steps (req : IngestRequest) (now : Timestamp)
    (store : nat → TxVerdict) (db : Db) :
  steps db (ingestSessionEvent req now store db).2.
Proof.
  unfold steps, ingestSessionEvent.
  destruct (truthy (extractIdempotencyKey req)); cbn [negb]; [|done].
  destruct (extractIdempotencyKey req) as [key|]; [|done].
  unfold processWithKey.
  pose proof (rtc_once _ _ (step_check key now db)) as Hcheck.
  pose proof (validateAndUpsert_steps key req now store
                (checkIdempotency key now db).2) as Hgo.
  destruct (checkIdempotency key now db) as [[isDuplicate cached] db1].
  cbn [fst snd] in *.
  assert (rtc step db (validateAndUpsert key req now store db1).2) as Hall
    by (by etrans).
  by destruct isDuplicate, cached.
Qed.

Lemma reachable_steps (db db' : Db) : reachable db → rtc step db db' → reachable db'.
Proof.
  intros Hreach Hsteps. induction Hsteps as [db|db db1 db2 Hstep _ IH]; [done|].
  apply IH. by eapply reachable_step.
Qed.

(** The request handler only moves between reachable states. *)
Lemma ingestSessionEvent_reachable (req : IngestRequest) (now : Timestamp)
    (store : nat → TxVerdict) (db : Db) :
  reachable db → reachable (ingestSessionEvent req now store db).2.
Proof.
  intros Hreach. eapply reachable_steps; [exact Hreach|].
  apply ingestSessionEvent_steps.
Qed.


(** ** Order independence, on doubles *)

Lemma double_sort_insert_sorted (x : Double.Event) (l : list Double.Event) :
  StronglySorted Double.timestampLe l →
  StronglySorted Double.timestampLe (sort_insert Double.byTimestamp x l).
Proof.
  induction 1 as [|y l Hl IH Hy]; simpl.
  - repeat constructor.
  - case_bool_decide as Hxy.
    + constructor; [by constructor|].
      assert (Double.timestampLe x y)
        by (unfold Double.timestampLe, Double.byTimestamp in *; lia).
      constructor; [done|].
      eapply Forall_impl; [exact Hy|].
      unfold Double.timestampLe in *. intros z ?. lia.
    + constructor; [done|].
      rewrite sort_insert_Permutation. constructor; [|done].
      unfold Double.timestampLe, Double.byTimestamp in *. lia.
Qed.

Lemma double_array_sort_sorted (l : list Double.Event) :
  StronglySorted Double.timestampLe (array_sort Double.byTimestamp l).
Proof.
  induction l as [|x l IH]; simpl; [constructor|].
  by apply double_sort_insert_sorted.
Qed.

(** Events with pairwise distinct timestamps are told apart by their
    timestamps. *)
Lemma double_timestamp_inj (l : list Double.Event) (x y : Double.Event) :
  Double.distinctTimestamps l → x ∈ l → y ∈ l →
  Double.Event.timestamp x = Double.Event.timestamp y → x = y.
Proof.
  unfold Double.distinctTimestamps.
  induction l as [|z l IH]; intros Hnodup Hx Hy Heq; [by apply elem_of_nil in Hx|].
  simpl in Hnodup. apply NoDup_cons in Hnodup as [Hz Hnodup].
  apply elem_of_cons in Hx as [->|Hx]; apply elem_of_cons in Hy as [->|Hy].
  - done.
  - destruct Hz. rewrite Heq. by apply (list_elem_of_fmap_2 Double.Event.timestamp).
  - destruct Hz. rewrite <-Heq. by apply (list_elem_of_fmap_2 Double.Event.timestamp).
  - by apply IH.
Qed.

(** With pairwise distinct timestamps the sorted list is the same for every
    listing of the events, and it is strictly ascending. *)
Lemma double_array_sort_unique (l1 l2 : list Double.Event) :
  l1 ≡ₚ l2 → Double.distinctTimestamps l1 →
  array_sort Double.byTimestamp l1 = array_sort Double.byTimestamp l2.
Proof.
  intros Hperm Hdistinct.
  apply (StronglySorted_unique_strong Double.timestampLe).
  - intros x1 x2 Hx1 Hx2 H12 H21.
    rewrite array_sort_Permutation in Hx1, Hx2. rewrite <-Hperm in Hx2.
    apply (double_timestamp_inj l1); [done|done|done|].
    unfold Double.timestampLe in *. lia.
  - apply double_array_sort_sorted.
  - apply double_array_sort_sorted.
  - by rewrite !array_sort_Permutation.
Qed.


Lemma double_orZero_counted (measure : option float) :
  Double.orZero measure = Double.counted measure.
Proof.
  destruct measure as [x|]; [|done].
  unfold Double.orZero, Double.counted, PrimFloat.is_nan, PrimFloat.is_zero,
    PrimFloat.zero.
  by destruct (PrimFloat.eqb x x), (PrimFloat.eqb x 0%float).
Qed.

Lemma double_sum_runningTotal (field : Double.Event → option float)
    (events : list Double.Event) :
  Double.sum (map field events) = Double.runningTotal field events.
Proof.
  unfold Double.sum, Double.runningTotal.
  generalize 0%float. induction events as [|e events IH]; intros acc; simpl; [done|].
  rewrite double_orZero_counted. apply IH.
Qed.

Lemma double_isEarliest_Permutation (t : Timestamp) (l1 l2 : list Double.Event) :
  l1 ≡ₚ l2 → Double.isEarliest t l1 → Double.isEarliest t l2.
Proof. intros Hp [Hin Hall]. split; [by rewrite <-Hp | by rewrite <-Hp]. Qed.

Lemma double_isLatest_Permutation (t : Timestamp) (l1 l2 : list Double.Event) :
  l1 ≡ₚ l2 → Double.isLatest t l1 → Double.isLatest t l2.
Proof. intros Hp [Hin Hall]. split; [by rewrite <-Hp | by rewrite <-Hp]. Qed.

Lemma double_isEarliest_unique (t1 t2 : Timestamp) (l : list Double.Event) :
  Double.isEarliest t1 l → Double.isEarliest t2 l → t1 = t2.
Proof.
  intros [Hin1 Hall1] [Hin2 Hall2].
  apply list_elem_of_fmap in Hin1 as (x1 & -> & Hx1).
  apply list_elem_of_fmap in Hin2 as (x2 & -> & Hx2).
  rewrite Forall_forall in Hall1, Hall2.
  specialize (Hall1 _ Hx2). specialize (Hall2 _ Hx1). simpl in *. lia.
Qed.

Lemma double_isLatest_unique (t1 t2 : Timestamp) (l : list Double.Event) :
  Double.isLatest t1 l → Double.isLatest t2 l → t1 = t2.
Proof.
  intros [Hin1 Hall1] [Hin2 Hall2].
  apply list_elem_of_fmap in Hin1 as (x1 & -> & Hx1).
  apply list_elem_of_fmap in Hin2 as (x2 & -> & Hx2).
  rewrite Forall_forall in Hall1, Hall2.
  specialize (Hall1 _ Hx2). specialize (Hall2 _ Hx1). simpl in *. lia.
Qed.

Lemma double_sorted_head_isEarliest (first : Double.Event) (sorted : list Double.Event) :
  StronglySorted Double.timestampLe sorted → sorted !! 0%nat = Some first →
  Double.isEarliest (Double.Event.timestamp first) sorted.
Proof.
  intros Hs Hfirst. destruct sorted as [|e l]; [done|].
  simpl in Hfirst. injection Hfirst as ->.
  apply StronglySorted_cons in Hs as [Hall _].
  split; [simpl; left|].
  constructor; [lia|done].
Qed.

Lemma double_sorted_last_isLatest (final : Double.Event) (sorted : list Double.Event) :
  StronglySorted Double.timestampLe sorted →
  sorted !! (length sorted - 1)%nat = Some final →
  Double.isLatest (Double.Event.timestamp final) sorted.
Proof.
  intros Hs Hfinal.
  destruct (decide (sorted = [])) as [->|Hne]; [done|].
  destruct (exists_last Hne) as (l & e & ->).
  rewrite length_app in Hfinal. simpl in Hfinal.
  replace (length l + 1 - 1)%nat with (length l + 0)%nat in Hfinal by lia.
  rewrite lookup_app_r in Hfinal by lia.
  replace (length l + 0 - length l)%nat with 0%nat in Hfinal by lia.
  simpl in Hfinal. injection Hfinal as ->.
  apply StronglySorted_app in Hs as (Hle & _ & _).
  split.
  - rewrite map_app. apply elem_of_app. right. simpl. left.
  - apply Forall_app. split.
    + apply Forall_forall. intros x Hx. apply (Hle x final Hx). left.
    + constructor; [lia|constructor].
Qed.

(** What the aggregate engine returns, read off its sorted list. *)
Lemma double_computeAggregates_fields (events : list Double.Event)
    (agg : Double.SessionAggregates) :
  Double.computeAggregates events = Normal agg →
  let sorted := array_sort Double.byTimestamp events in
  events ≠ [] ∧
  Double.SessionAggregates.eventCount agg = length events ∧
  Double.isEarliest (Double.SessionAggregates.startTime agg) events ∧
  Double.isLatest (Double.SessionAggregates.endTime agg) events ∧
  Double.SessionAggregates.lastEventTime agg = Double.SessionAggregates.endTime agg ∧
  Double.SessionAggregates.totalDuration agg
  = Double.runningTotal Double.Event.duration sorted ∧
  Double.SessionAggregates.totalDistance agg
  = Double.runningTotal Double.Event.distance sorted ∧
  Double.SessionAggregates.totalCalories agg
  = Double.runningTotal Double.Event.calories sorted ∧
  Double.SessionAggregates.totalSteps agg
  = Double.runningTotal Double.Event.steps sorted.
Proof.
  intros Hrun sorted. unfold Double.computeAggregates in Hrun.
  case_bool_decide as Hlen; [done|].
  fold sorted in Hrun.
  pose proof (array_sort_Permutation Double.byTimestamp events) as Hperm.
  pose proof (array_sort_length Double.byTimestamp events) as Hlength.
  pose proof (double_array_sort_sorted events) as Hsorted.
  fold sorted in Hperm, Hlength, Hsorted.
  destruct (sorted !! 0%nat) as [first|] eqn:Hfirst; [|done].
  destruct (sorted !! (length sorted - 1)%nat) as [final|] eqn:Hfinal; [|done].
  injection Hrun as <-. simpl.
  rewrite !double_sum_runningTotal.
  split_and!; try done.
  - by intros ->.
  - eapply double_isEarliest_Permutation; [exact Hperm|].
    by apply double_sorted_head_isEarliest.
  - eapply double_isLatest_Permutation; [exact Hperm|].
    by apply double_sorted_last_isLatest.
Qed.

Lemma double_computeAggregates_returns (events : list Double.Event) :
  events ≠ [] → ∃ agg, Double.computeAggregates events = Normal agg.
Proof.
  intros Hne. unfold Double.computeAggregates.
  rewrite bool_decide_eq_false_2 by (by destruct events).
  pose proof (array_sort_length Double.byTimestamp events) as Hlen.
  assert (0 < length (array_sort Double.byTimestamp events))%nat as Hpos
    by (rewrite Hlen; destruct events; [done|simpl; lia]).
  destruct (lookup_lt_is_Some_2 (array_sort Double.byTimestamp events) 0 Hpos)
    as [first ->].
  destruct (lookup_lt_is_Some_2 (array_sort Double.byTimestamp events)
              (length (array_sort Double.byTimestamp events) - 1)) as [final ->];
    [lia|].
  by eexists.
Qed.









(** X1. On doubles, the aggregate engine gives the same result for every
    listing of the same events when no two of them share a timestamp; for
    events that do, the count and the start, end and last timestamps are
    still the same for every listing, but the totals need not be: the
    distances 0.1, 0.2 and 0.3 of three events recorded at the same instant
    add up to 0.6000000000000001 in one listing and to 0.6 in the reverse
    one. *)
Theorem double_computeAggregates_listing (events1 events2 : list Double.Event) :
  events1 ≡ₚ events2 →
  (Double.distinctTimestamps events1 →
   Double.computeAggregates events1 = Double.computeAggregates events2) ∧
  (∀ agg1, Double.computeAggregates events1 = Normal agg1 →
     ∃ agg2, Double.computeAggregates events2 = Normal agg2 ∧
       Double.SessionAggregates.eventCount agg2
       = Double.SessionAggregates.eventCount agg1 ∧
       Double.SessionAggregates.startTime agg2
       = Double.SessionAggregates.startTime agg1 ∧
       Double.SessionAggregates.endTime agg2
       = Double.SessionAggregates.endTime agg1 ∧
       Double.SessionAggregates.lastEventTime agg2
       = Double.SessionAggregates.lastEventTime agg1) ∧
  (∃ forth back,
     Double.computeAggregates [Double.legA; Double.legB; Double.legC] = Normal forth ∧
     Double.computeAggregates [Double.legC; Double.legB; Double.legA] = Normal back ∧
     Double.SessionAggregates.totalDistance forth = Double.d06up ∧
     Double.SessionAggregates.totalDistance back = Double.d06).
Proof.
  intros Hperm. split_and!.
  - intros Hdistinct. unfold Double.computeAggregates.
    rewrite (double_array_sort_unique events1 events2 Hperm Hdistinct).
    by rewrite (Permutation_length Hperm).
  - intros agg1 Hrun1.
    destruct (double_computeAggregates_fields events1 agg1 Hrun1)
      as (Hne & Hcount1 & Hstart1 & Hend1 & Hlast1 & _).
    destruct (double_computeAggregates_returns events2) as (agg2 & Hrun2).
    { intros ->. by apply Permutation_nil_r in Hperm. }
    destruct (double_computeAggregates_fields events2 agg2 Hrun2)
      as (_ & Hcount2 & Hstart2 & Hend2 & Hlast2 & _).
    exists agg2. split; [done|].
    assert (Double.SessionAggregates.endTime agg2
            = Double.SessionAggregates.endTime agg1) as Hend.
    { apply (double_isLatest_unique _ _ events2); [done|].
      by apply (double_isLatest_Permutation _ events1). }
    split_and!.
    + by rewrite Hcount1, Hcount2, Hperm.
    + apply (double_isEarliest_unique _ _ events2); [done|].
      by apply (double_isEarliest_Permutation _ events1).
    + done.
    + by rewrite Hlast1, Hlast2.
  - eexists _, _.
    split; [vm_compute; reflexivity|]. split; [vm_compute; reflexivity|].
    split; vm_compute; reflexivity.
Qed.

Lemma double_computeAggregates_listing_witness :
  Double.computeAggregates [Double.lapC; Double.lapA; Double.lapB]
  = Double.computeAggregates [Double.lapA; Double.lapB; Double.lapC].
Proof.
  destruct (double_computeAggregates_listing
              [Double.lapC; Double.lapA; Double.lapB]
              [Double.lapA; Double.lapB; Double.lapC]) as (Hsame & _).
  - apply (Permutation_cons_append [Double.lapA; Double.lapB] Double.lapC).
  - apply Hsame. unfold Double.distinctTimestamps. simpl.
    repeat constructor; rewrite ?elem_of_cons, ?elem_of_nil; intuition lia.
Defined.




(** ** The idempotency ledger *)

(** A path without ["/"] is one segment. *)
Lemma splitSlash_plain (path : string) :
  includes "/" path = false → splitSlash path = [path].
Proof.
  induction path as [|c rest IH]; [done|].
  cbn [includes]. intros Hnone.
  apply orb_false_iff in Hnone as [Hhead Hrest].
  cbn [String.prefix] in Hhead.
  destruct (Ascii.ascii_dec _ c) as [<-|Hc]; [by destruct rest|].
  cbn [splitSlash].
  assert (String.eqb (String c EmptyString) "/" = false) as ->.
  { apply String.eqb_neq. intros [= ->]. by apply Hc. }
  by rewrite (IH Hrest).
Qed.

Lemma includes_slashes (path : string) :
  includes "/" path = false → includes "//" path = false.
Proof.
  induction path as [|c rest IH]; [done|].
  cbn [includes]. intros Hnone.
  apply orb_false_iff in Hnone as [Hhead Hrest].
  rewrite (IH Hrest), orb_false_r.
  cbn [String.prefix] in Hhead |- *.
  destruct (Ascii.ascii_dec _ c) as [<-|Hc]; [by destruct rest|done].
Qed.

(** The client accepts the id of a document, and the document it leads to
    is kept under that id. *)
Lemma validDocumentId_accepted (id : string) :
  validDocumentId id = true → docRefusal id = None ∧ documentKey id = id.
Proof.
  unfold validDocumentId. rewrite !andb_true_iff, !negb_true_iff.
  intros (((((Hne & Hslash) & _) & _) & _) & _).
  unfold docRefusal, documentKey, pathSegments.
  rewrite Hne, (includes_slashes _ Hslash), (splitSlash_plain _ Hslash).
  apply String.eqb_neq in Hne.
  rewrite filter_cons_True by (destruct id; [done|simpl; lia]).
  by rewrite filter_nil.
Qed.

(** C6, for the keys the store can hold.  For a key that is the id of a
    document, [checkIdempotency] answers "not a duplicate" when the key has
    no record, and also when its record has expired, in which case the record
    is deleted; for an unexpired record it answers "duplicate", with the
    stored response as it is when the status is [completed], and with no
    cached response when the status is [processing]. *)
Theorem checkIdempotencyCall_cases (key : string) (now : Timestamp) (db : Db) :
  validDocumentId key = true →
  (Db.idempotency db !! key = None →
   checkIdempotencyCall key now db = Normal (IdempotencyResult.mk false None, db)) ∧
  (∀ data, Db.idempotency db !! key = Some data →
     IdempotencyRecord.expiresAt data < now →
     ∃ db',
       checkIdempotencyCall key now db = Normal (IdempotencyResult.mk false None, db') ∧
       Db.idempotency db' = delete key (Db.idempotency db) ∧
       Db.idempotency db' !! key = None ∧
       Db.sessions db' = Db.sessions db ∧ Db.events db' = Db.events db) ∧
  (∀ data, Db.idempotency db !! key = Some data →
     ¬ IdempotencyRecord.expiresAt data < now →
     IdempotencyRecord.status data = completed →
     checkIdempotencyCall key now db
     = Normal (IdempotencyResult.mk true (Some (IdempotencyRecord.response data)), db)) ∧
  (∀ data, Db.idempotency db !! key = Some data →
     ¬ IdempotencyRecord.expiresAt data < now →
     IdempotencyRecord.status data = processing →
     checkIdempotencyCall key now db = Normal (IdempotencyResult.mk true None, db)).
Proof.
  intros Hvalid.
  destruct (validDocumentId_accepted key Hvalid) as [Haccepted Hkey].
  unfold checkIdempotencyCall. rewrite Haccepted, Hkey.
  unfold checkIdempotency. split_and!.
  - by intros ->.
  - intros data -> Hexp. rewrite bool_decide_eq_true_2 by done.
    eexists. split; [done|]. simpl. split_and!; try done.
    apply lookup_delete_eq.
  - intros data -> Hexp ->. by rewrite bool_decide_eq_false_2.
  - intros data -> Hexp ->. by rewrite bool_decide_eq_false_2.
Qed.

Lemma checkIdempotencyCall_cases_witness :
  checkIdempotencyCall "key-1" 3600001 dbCompleted
  = Normal (IdempotencyResult.mk true (Some cachedSuccess), dbCompleted)
  ∧ ∃ db',
      checkIdempotencyCall "key-1" 90000001 dbCompleted
      = Normal (IdempotencyResult.mk false None, db') ∧
      Db.idempotency db' !! "key-1" = None.
Proof.
  destruct (checkIdempotencyCall_cases "key-1" 3600001 dbCompleted eq_refl)
    as (_ & _ & Hcompleted & _).
  destruct (checkIdempotencyCall_cases "key-1" 90000001 dbCompleted eq_refl)
    as (_ & Hexpired & _ & _).
  split.
  - apply (Hcompleted
             (IdempotencyRecord.mk "session-1" completed cachedSuccess 3600000 90000000)).
    + reflexivity.
    + simpl. lia.
    + reflexivity.
  - destruct (Hexpired
                (IdempotencyRecord.mk "session-1" completed cachedSuccess 3600000
                   90000000)) as (db' & Hrun & _ & Hgone & _).
    + reflexivity.
    + simpl. lia.
    + exists db'. split; [exact Hrun|exact Hgone].
Defined.

(** C6 as stated fails for a key that is not the id of a document: the key
    ["a/b"] has no record, yet the check is not answered "not a duplicate",
    because building the reference throws. *)
Lemma checkIdempotency_refuses_path :
  Db.idempotency emptyDb !! "a/b" = None ∧
  checkIdempotencyCall "a/b" 1700000000000 emptyDb = Throw (notADocument "a/b") ∧
  ∀ answer, checkIdempotencyCall "a/b" 1700000000000 emptyDb ≠ Normal answer.
Proof. split_and!; [reflexivity|reflexivity|discriminate]. Qed.

(** ** Payload validation *)

Lemma validationResult_valid (errors : list ValidationError) :
  ValidationResult.isValid (validationResult errors) = true ↔ errors = [].
Proof.
  unfold validationResult. simpl. rewrite bool_decide_eq_true.
  by destruct errors.
Qed.

Lemma validationResult_invalid (errors : list ValidationError) :
  ValidationResult.isValid (validationResult errors) = false ↔ errors ≠ [].
Proof.
  unfold validationResult. simpl. rewrite bool_decide_eq_false.
  by destruct errors.
Qed.

Lemma offset_exceeds (limit d : Z) :
  (Qc_of_Z limit < Qc_of_Z d / Qc_of_Z 1000)%Qc ↔ limit * 1000 < d.
Proof.
  unfold Qclt, Qcdiv, Qcmult, Qcinv, Q2Qc, Qc_of_Z. simpl this.
  rewrite !Qred_correct.
  unfold Qlt, Qmult, Qinv, inject_Z. simpl. lia.
Qed.

Lemma validateTimestamp_valid (timestamp now : Timestamp) :
  ValidationResult.isValid (validateTimestamp timestamp now DEFAULT_CONSTRAINTS) = true
  ↔ timestamp - now ≤ 3600 * 1000 ∧ now - timestamp ≤ 2592000 * 1000.
Proof.
  unfold validateTimestamp. rewrite validationResult_valid. simpl.
  pose proof (offset_exceeds 3600 (timestamp - now)) as Hf.
  pose proof (offset_exceeds 2592000 (now - timestamp)) as Hp.
  rewrite (bool_decide_ext _ _ Hf), (bool_decide_ext _ _ Hp).
  repeat case_bool_decide; simpl; split; try done; intros; lia.
Qed.

Section MeasureBounds.
Local Open Scope Qc_scope.

Lemma range_check (x maximum : Qc) :
  ¬ x < 0 ∧ ¬ maximum < x ↔ 0 ≤ x ∧ x ≤ maximum.
Proof. by rewrite <-!Qcle_ngt. Qed.

Lemma validateDistance_accepts (distance : option Qc) :
  validateDistance distance DEFAULT_CONSTRAINTS = [] ↔ withinRange distance 100000.
Proof.
  destruct distance as [x|]; simpl; [|done].
  rewrite <-range_check. repeat case_bool_decide; intuition congruence.
Qed.

Lemma validateCalories_accepts (calories : option Qc) :
  validateCalories calories DEFAULT_CONSTRAINTS = [] ↔ withinRange calories 10000.
Proof.
  destruct calories as [x|]; simpl; [|done].
  rewrite <-range_check. repeat case_bool_decide; intuition congruence.
Qed.

Lemma validateDuration_accepts (duration : option Qc) :
  validateDuration duration DEFAULT_CONSTRAINTS = [] ↔ withinRange duration 86400.
Proof.
  destruct duration as [x|]; simpl; [|done].
  rewrite <-range_check. repeat case_bool_decide; intuition congruence.
Qed.

Lemma validateSteps_accepts (steps : option Qc) :
  validateSteps steps DEFAULT_CONSTRAINTS = []
  ↔ withinRange steps 100000 ∧ wholeNumber steps.
Proof.
  destruct steps as [x|]; simpl; [|done].
  rewrite <-range_check.
  destruct (isInteger x); simpl; repeat case_bool_decide; intuition (try congruence; try discriminate).
Qed.
End MeasureBounds.

Lemma validateMetrics_valid (payload : RawEventPayload) :
  ValidationResult.isValid (validateMetrics payload DEFAULT_CONSTRAINTS) = true
  ↔ withinRange (RawEventPayload.distance payload) 100000 ∧
    withinRange (RawEventPayload.calories payload) 10000 ∧
    (withinRange (RawEventPayload.steps payload) 100000 ∧
     wholeNumber (RawEventPayload.steps payload)) ∧
    withinRange (RawEventPayload.duration payload) 86400.
Proof.
  unfold validateMetrics.
  rewrite validationResult_valid, !app_nil.
  by rewrite validateDistance_accepts, validateCalories_accepts,
    validateSteps_accepts, validateDuration_accepts.
Qed.

Lemma validatePayload_metrics (payload : RawEventPayload) (now : Timestamp) :
  ValidationResult.isValid (validateMetrics payload DEFAULT_CONSTRAINTS) = false →
  ValidationResult.isValid (validatePayload payload now DEFAULT_CONSTRAINTS) = false.
Proof.
  intros Hm. unfold validatePayload. rewrite Hm. simpl negb. cbv iota.
  apply validationResult_invalid. rewrite !app_nil.
  intros (_ & _ & _ & _ & _ & Herr).
  unfold validateMetrics in Hm. apply validationResult_invalid in Hm.
  by apply Hm.
Qed.

Lemma validatePayload_timestamp (payload : RawEventPayload) (now t : Timestamp) :
  normalizeTimestamp (RawEventPayload.timestamp payload) = Normal t →
  ValidationResult.isValid (validateTimestamp t now DEFAULT_CONSTRAINTS) = false →
  ValidationResult.isValid (validatePayload payload now DEFAULT_CONSTRAINTS) = false.
Proof.
  intros Hn Ht. unfold validatePayload. rewrite Hn, Ht. simpl negb. cbv iota.
  apply validationResult_invalid. rewrite !app_nil.
  intros (_ & _ & _ & H4 & H5 & _).
  destruct (truthyTimestamp (RawEventPayload.timestamp payload)); [|done].
  unfold validateTimestamp in Ht. apply validationResult_invalid in Ht.
  by apply Ht.
Qed.

Lemma rejected_when (valid : bool) (P : Prop) :
  (valid = true ↔ P) → ¬ P → valid = false.
Proof. intros Hiff HnP. destruct valid; [|done]. destruct HnP. by apply Hiff. Qed.

(** C9. Validation with the default constraints.  A payload whose metrics
    are rejected is rejected.  A distance of 100001 is rejected and a
    distance of 100000 raises no error; a negative duration, distance,
    calories or steps value is rejected; a steps value that is not a whole
    number is rejected; a value above 100000 for distance, 10000 for
    calories, 100000 for steps or 86400 for duration is rejected, and the
    metrics are accepted exactly when each measure present lies within these
    bounds and steps is whole.  A timestamp more than 3600 seconds after the
    clock or more than 2592000 seconds before it is rejected, so two hours
    ahead and 31 days back are, and a timestamp within these bounds passes
    the timestamp check. *)
Theorem validation_boundaries (payload : RawEventPayload) (now : Timestamp) :
  let metrics := validateMetrics payload DEFAULT_CONSTRAINTS in
  let result := validatePayload payload now DEFAULT_CONSTRAINTS in
  (ValidationResult.isValid metrics = false → ValidationResult.isValid result = false) ∧
  (RawEventPayload.distance payload = Some (Qc_of_Z 100001) →
   ValidationResult.isValid metrics = false) ∧
  (RawEventPayload.distance payload = Some (Qc_of_Z 100000) →
   validateDistance (RawEventPayload.distance payload) DEFAULT_CONSTRAINTS = []) ∧
  ValidationResult.isValid
    (validatePayload (payloadWithDistance 100000) 1700000000000 DEFAULT_CONSTRAINTS)
  = true ∧
  (∀ x : Qc, (x < 0)%Qc →
     RawEventPayload.duration payload = Some x ∨
     RawEventPayload.distance payload = Some x ∨
     RawEventPayload.calories payload = Some x ∨
     RawEventPayload.steps payload = Some x →
     ValidationResult.isValid metrics = false) ∧
  (∀ x : Qc, RawEventPayload.steps payload = Some x → isInteger x = false →
     ValidationResult.isValid metrics = false) ∧
  (∀ x : Qc,
     (RawEventPayload.distance payload = Some x ∧ (Qc_of_Z 100000 < x)%Qc) ∨
     (RawEventPayload.calories payload = Some x ∧ (Qc_of_Z 10000 < x)%Qc) ∨
     (RawEventPayload.steps payload = Some x ∧ (Qc_of_Z 100000 < x)%Qc) ∨
     (RawEventPayload.duration payload = Some x ∧ (Qc_of_Z 86400 < x)%Qc) →
     ValidationResult.isValid metrics = false) ∧
  (ValidationResult.isValid metrics = true
   ↔ withinRange (RawEventPayload.distance payload) 100000 ∧
     withinRange (RawEventPayload.calories payload) 10000 ∧
     (withinRange (RawEventPayload.steps payload) 100000 ∧
      wholeNumber (RawEventPayload.steps payload)) ∧
     withinRange (RawEventPayload.duration payload) 86400) ∧
  (∀ t : Timestamp,
     normalizeTimestamp (RawEventPayload.timestamp payload) = Normal t →
     3600 * 1000 < t - now ∨ 2592000 * 1000 < now - t →
     ValidationResult.isValid result = false) ∧
  ValidationResult.isValid
    (validateTimestamp (now + 2 * 60 * 60 * 1000) now DEFAULT_CONSTRAINTS) = false ∧
  ValidationResult.isValid
    (validateTimestamp (now - 31 * 24 * 60 * 60 * 1000) now DEFAULT_CONSTRAINTS) = false ∧
  (∀ t : Timestamp,
     ValidationResult.isValid (validateTimestamp t now DEFAULT_CONSTRAINTS) = true
     ↔ t - now ≤ 3600 * 1000 ∧ now - t ≤ 2592000 * 1000).
Proof.
  intros metrics result. subst metrics result.
  pose proof (validateMetrics_valid payload) as Hvalid.
  assert (∀ (x : Qc) (maximum : Z), (x < 0)%Qc → ¬ withinRange (Some x) maximum)
    as Hneg.
  { intros x maximum Hx [H0 _]. by apply (Qclt_not_le x 0). }
  assert (∀ (x : Qc) (maximum : Z), (Qc_of_Z maximum < x)%Qc →
            ¬ withinRange (Some x) maximum) as Hmax.
  { intros x maximum Hx [_ Hle]. by apply (Qclt_not_le _ _ Hx). }
  split_and!.
  - apply validatePayload_metrics.
  - intros Hd. apply (rejected_when _ _ Hvalid). rewrite Hd.
    intros (Hr & _). by apply (Hmax (Qc_of_Z 100001) 100000).
  - intros ->. by apply validateDistance_accepts.
  - by vm_compute.
  - intros x Hx Hfield. apply (rejected_when _ _ Hvalid).
    intros (Hdist & Hcal & (Hsteps & _) & Hdur).
    destruct Hfield as [Hf|[Hf|[Hf|Hf]]]; rewrite Hf in *; by eapply Hneg.
  - intros x Hs Hint. apply (rejected_when _ _ Hvalid). rewrite Hs.
    intros (_ & _ & (_ & Hwhole) & _). simpl in Hwhole. congruence.
  - intros x Hfield. apply (rejected_when _ _ Hvalid).
    intros (Hdist & Hcal & (Hsteps & _) & Hdur).
    destruct Hfield as [[Hf Hx]|[[Hf Hx]|[[Hf Hx]|[Hf Hx]]]];
      rewrite Hf in *; by eapply Hmax.
  - exact Hvalid.
  - intros t Hn Hout. apply (validatePayload_timestamp _ _ t Hn).
    apply (rejected_when _ _ (validateTimestamp_valid t now)). lia.
  - apply (rejected_when _ _ (validateTimestamp_valid _ now)). lia.
  - apply (rejected_when _ _ (validateTimestamp_valid _ now)). lia.
  - intros t. apply validateTimestamp_valid.
Qed.

Lemma validation_boundaries_witness :
  ValidationResult.isValid
    (validatePayload (payloadWithDistance 100001) 1700000000000 DEFAULT_CONSTRAINTS)
  = false.
Proof.
  destruct (validation_boundaries (payloadWithDistance 100001) 1700000000000)
    as (Hmetrics & Hdistance & _).
  apply Hmetrics, Hdistance. reflexivity.
Defined.

(** ** The request handler *)

Lemma truthy_absentOrEmpty (s : option string) :
  truthy s = false ↔ absentOrEmpty s.
Proof.
  unfold truthy, absentOrEmpty. destruct s as [s|].
  - rewrite negb_false_iff, String.eqb_eq.
    split; [intros ->; by right|]. by intros [?|[= ->]].
  - split; [by left|done].
Qed.

Lemma extractIdempotencyKey_falsy (req : IngestRequest) :
  truthy (extractIdempotencyKey req) = false
  ↔ absentOrEmpty (IngestRequest.idempotencyKeyHeader req) ∧
    absentOrEmpty (RawEventPayload.idempotencyKey (IngestRequest.body req)) ∧
    absentOrEmpty (RawEventPayload.eventId (IngestRequest.body req)).
Proof.
  rewrite <-!truthy_absentOrEmpty. unfold extractIdempotencyKey, orElse.
  destruct (truthy (IngestRequest.idempotencyKeyHeader req)) eqn:Hh; simpl.
  - rewrite Hh. intuition congruence.
  - destruct (truthy (RawEventPayload.idempotencyKey (IngestRequest.body req)))
      eqn:Hb; simpl.
    + rewrite Hb. intuition congruence.
    + intuition congruence.
Qed.

(** Every answer given once a key was found is a 200, a 500, or a 400 that
    lists validation errors. *)
Lemma validateAndUpsert_response (key : string) (req : IngestRequest)
    (now : Timestamp) (store : nat → TxVerdict) (db : Db) :
  let response := (validateAndUpsert key req now store db).1 in
  HttpResponse.status response = 200 ∨
  HttpResponse.status response = 500 ∨
  (HttpResponse.status response = 400 ∧
   is_Some (IngestResponse.errors (HttpResponse.json response))).
Proof.
  unfold validateAndUpsert.
  destruct (ValidationResult.isValid _); simpl; [|right; right; eauto].
  destruct (normalizePayload _) as [normalized|m]; simpl; [|by right; left].
  destruct (UpsertRun.outcome _) as [[result db3]|m]; simpl; [|by right; left].
  unfold cacheResponseObject.
  destruct (UpsertResult.status result), (IngestResponse.session _); simpl; auto.
Qed.

Lemma processWithKey_response (key : string) (req : IngestRequest)
    (now : Timestamp) (store : nat → TxVerdict) (db : Db) :
  let response := (processWithKey key req now store db).1 in
  HttpResponse.status response = 200 ∨
  HttpResponse.status response = 500 ∨
  (HttpResponse.status response = 400 ∧
   is_Some (IngestResponse.errors (HttpResponse.json response))).
Proof.
  unfold processWithKey.
  destruct (checkIdempotency key now db) as [[isDuplicate cached] db1]; simpl.
  destruct isDuplicate, cached; simpl;
    first [by left | apply validateAndUpsert_response].
Qed.

Lemma processWithKey_not_missingKey (key : string) (req : IngestRequest)
    (now : Timestamp) (store : nat → TxVerdict) (db : Db) :
  (processWithKey key req now store db).1 ≠ missingKeyResponse.
Proof.
  intros Heq.
  pose proof (processWithKey_response key req now store db) as Hr.
  simpl in Hr. rewrite Heq in Hr. simpl in Hr.
  destruct Hr as [?|[?|[_ [? ?]]]]; done.
Qed.

(** C10, as the handler implements it.  Without key header and without
    body [idempotencyKey], a non-empty [eventId] is taken as the idempotency
    key and the request is processed under it, so the answer is not the 400
    missing-key error.  That error is the answer exactly when each of the
    header, the body [idempotencyKey] and the body [eventId] is absent or an
    empty string. *)
Theorem missing_key_response (req : IngestRequest) (now : Timestamp)
    (store : nat → TxVerdict) (db : Db) :
  (∀ eventId : string,
     IngestRequest.idempotencyKeyHeader req = None →
     RawEventPayload.idempotencyKey (IngestRequest.body req) = None →
     RawEventPayload.eventId (IngestRequest.body req) = Some eventId →
     eventId ≠ "" →
     extractIdempotencyKey req = Some eventId ∧
     ingestSessionEvent req now store db = processWithKey eventId req now store db ∧
     (ingestSessionEvent req now store db).1 ≠ missingKeyResponse) ∧
  ((ingestSessionEvent req now store db).1 = missingKeyResponse
   ↔ absentOrEmpty (IngestRequest.idempotencyKeyHeader req) ∧
     absentOrEmpty (RawEventPayload.idempotencyKey (IngestRequest.body req)) ∧
     absentOrEmpty (RawEventPayload.eventId (IngestRequest.body req))).
Proof.
  split.
  - intros eventId Hh Hb He Hne.
    assert (extractIdempotencyKey req = Some eventId) as Hkey
      by (unfold extractIdempotencyKey, orElse; by rewrite Hh, Hb, He).
    assert (truthy (Some eventId) = true) as Htruthy.
    { simpl. apply negb_true_iff. by apply String.eqb_neq. }
    assert (ingestSessionEvent req now store db
            = processWithKey eventId req now store db) as Hrun
      by (unfold ingestSessionEvent; by rewrite Hkey, Htruthy).
    split_and!; [done|done|].
    rewrite Hrun. apply processWithKey_not_missingKey.
  - rewrite <-extractIdempotencyKey_falsy. unfold ingestSessionEvent.
    destruct (truthy (extractIdempotencyKey req)) eqn:Htruthy; simpl.
    + destruct (extractIdempotencyKey req) as [key|]; [|done].
      split; [|done]. intros Heq. by apply processWithKey_not_missingKey in Heq.
    + done.
Qed.

Lemma missing_key_response_witness :
  ingestSessionEvent
    (IngestRequest.mk None (payloadWithDistance 100)) 1700000000000 reliable emptyDb
  = processWithKey "event-1"
      (IngestRequest.mk None (payloadWithDistance 100)) 1700000000000 reliable emptyDb.
Proof.
  destruct (missing_key_response (IngestRequest.mk None (payloadWithDistance 100))
              1700000000000 reliable emptyDb) as (Hproceeds & _).
  destruct (Hproceeds "event-1") as (_ & Hrun & _);
    [reflexivity|reflexivity|reflexivity|discriminate|].
  exact Hrun.
Defined.

(** C10 as stated fails: a body that carries [eventId: ""] is answered with
    the 400 missing-key error although its [eventId] is not absent. *)
Lemma missing_key_with_eventId_present :
  RawEventPayload.eventId (IngestRequest.body emptyEventIdRequest) ≠ None ∧
  (ingestSessionEvent emptyEventIdRequest 1700000000000 reliable emptyDb).1
  = missingKeyResponse.
Proof. split; [discriminate|reflexivity]. Qed.

(** ** Retried requests *)

Lemma checkIdempotency_deleted (key : string) (now : Timestamp) (db : Db) :
  checkIdempotency key now (deleteIdempotency key db)
  = (IdempotencyResult.mk false None, deleteIdempotency key db).
Proof. unfold checkIdempotency. simpl. by rewrite lookup_delete_eq. Qed.

Lemma markProcessing_deleted (key sessionId : string) (now : Timestamp) (db : Db) :
  markProcessing key sessionId now (deleteIdempotency key db)
  = markProcessing key sessionId now db.
Proof.
  unfold markProcessing, setIdempotency, deleteIdempotency. simpl.
  by rewrite insert_delete_eq.
Qed.

(** Steps 3 to 11 give the same answer whether or not the ledger holds a
    record for the key: step 5 overwrites it. *)
Lemma validateAndUpsert_deleted (key : string) (req : IngestRequest)
    (now : Timestamp) (store : nat → TxVerdict) (db : Db) :
  (validateAndUpsert key req now store db).1
  = (validateAndUpsert key req now store (deleteIdempotency key db)).1.
Proof.
  unfold validateAndUpsert.
  destruct (ValidationResult.isValid _); cbn [negb fst]; [|done].
  destruct (normalizePayload _) as [normalized|m]; [|done].
  cbv zeta. by rewrite markProcessing_deleted.
Qed.

(** C7, as the handler implements it.  A request whose key has a
    [completed], unexpired record is answered 200 with the cached response as
    stored, and nothing is written.  A [failed], unexpired record is not
    replayed: the ledger reports a duplicate without cached response and the
    handler validates and processes the request again, answering as it would
    for a key without record.  Once the record has expired it is deleted and
    the request is handled as for a key without record. *)
Theorem retry_after_outcome (req : IngestRequest) (now : Timestamp)
    (store : nat → TxVerdict) (db : Db) (key : string) (record : IdempotencyRecord) :
  extractIdempotencyKey req = Some key →
  key ≠ "" →
  Db.idempotency db !! key = Some record →
  (IdempotencyRecord.status record = completed →
   ¬ IdempotencyRecord.expiresAt record < now →
   ingestSessionEvent req now store db
   = (HttpResponse.mk 200 (IdempotencyRecord.response record), db)) ∧
  (IdempotencyRecord.status record = failed →
   ¬ IdempotencyRecord.expiresAt record < now →
   checkIdempotency key now db = (IdempotencyResult.mk true None, db) ∧
   ingestSessionEvent req now store db = validateAndUpsert key req now store db ∧
   (ingestSessionEvent req now store db).1
   = (ingestSessionEvent req now store (deleteIdempotency key db)).1) ∧
  (IdempotencyRecord.expiresAt record < now →
   checkIdempotency key now db
   = (IdempotencyResult.mk false None, deleteIdempotency key db) ∧
   ingestSessionEvent req now store db
   = ingestSessionEvent req now store (deleteIdempotency key db)).
Proof.
  intros Hkey Hne Hrecord.
  assert (truthy (Some key) = true) as Htruthy.
  { simpl. apply negb_true_iff. by apply String.eqb_neq. }
  assert (∀ db0, ingestSessionEvent req now store db0
                 = processWithKey key req now store db0) as Hrun
    by (intros db0; unfold ingestSessionEvent; by rewrite Hkey, Htruthy).
  rewrite !Hrun. unfold processWithKey.
  rewrite checkIdempotency_deleted.
  unfold checkIdempotency. rewrite Hrecord.
  split_and!.
  - intros -> Hexp. by rewrite bool_decide_eq_false_2.
  - intros -> Hexp. rewrite bool_decide_eq_false_2 by done. simpl.
    split_and!; [done|done|]. apply validateAndUpsert_deleted.
  - intros Hexp. by rewrite bool_decide_eq_true_2.
Qed.

Lemma retry_after_outcome_witness :
  ingestSessionEvent retryRequest 3600001 reliable dbCompleted
  = (HttpResponse.mk 200 cachedSuccess, dbCompleted).
Proof.
  destruct (retry_after_outcome retryRequest 3600001 reliable dbCompleted "key-1"
              (IdempotencyRecord.mk "session-1" completed cachedSuccess 3600000 90000000))
    as (Hcompleted & _ & _).
  - reflexivity.
  - discriminate.
  - reflexivity.
  - apply Hcompleted; [reflexivity|simpl; lia].
Defined.

(** C7 as stated fails for a [failed] record.  The request of the README
    meets a store that is down: it is answered 500 with the failure of the
    store and its key is marked [failed].  One second later, well before the
    record expires, the same request is processed again and answered 200 with
    the session aggregates. *)
Lemma failed_key_is_reprocessed :
  let first := ingestSessionEvent readmeRequest 1705314601000 unavailable emptyDb in
  let second := ingestSessionEvent readmeRequest 1705314602000 reliable first.2 in
  first.1
  = HttpResponse.mk 500
      (IngestResponse.mk (Some false) None
         (Some (ErrorMessage "14 UNAVAILABLE: No connection established")) None) ∧
  (∃ record, Db.idempotency first.2 !! "key-1" = Some record ∧
     IdempotencyRecord.status record = failed ∧
     ¬ IdempotencyRecord.expiresAt record < 1705314602000) ∧
  storedEvents "session-456" first.2 = [] ∧
  second.1
  = HttpResponse.mk 200
      (IngestResponse.mk (Some true)
         (Some (SessionView.mk "session-456" readmeAggregates)) None None) ∧
  second.1 ≠ first.1 ∧
  length (storedEvents "session-456" second.2) = 1%nat.
Proof.
  intros first second.
  assert (HttpResponse.status first.1 = 500) as H1 by (vm_compute; reflexivity).
  assert (HttpResponse.status second.1 = 200) as H2 by (vm_compute; reflexivity).
  split_and!.
  - vm_compute; reflexivity.
  - eexists. split_and!; [vm_compute; reflexivity|reflexivity|].
    simpl. unfold IDEMPOTENCY_TTL_SECONDS. lia.
  - vm_compute; reflexivity.
  - vm_compute. repeat first [apply Qc_is_canon; reflexivity | f_equal].
  - intros Heq. rewrite Heq, H1 in H2. discriminate.
  - vm_compute; reflexivity.
Qed.

(** * Further properties *)

(** ** The order advisory *)

Lemma findIndexFrom_none {A : Type} (index : Z) (predicate : A → bool) (l : list A) :
  Forall (λ x, predicate x = false) l → findIndexFrom index predicate l = -1.
Proof.
  intros Hall. revert index.
  induction Hall as [|x l Hx _ IH]; intros index; simpl; [done|].
  by rewrite Hx.
Qed.

Lemma notLater_none (t : Timestamp) (l : list Event) :
  Forall (λ e, t < Event.timestamp e) l →
  filter (λ e, Event.timestamp e ≤ t) l = [].
Proof.
  induction 1 as [|x l Hx _ IH]; [done|].
  rewrite filter_cons_False by lia. exact IH.
Qed.

Lemma findIndexFrom_sorted (index : Z) (t : Timestamp) (sorted : list Event) :
  StronglySorted timestampLe sorted →
  Exists (λ e, t < Event.timestamp e) sorted →
  findIndexFrom index (λ e, bool_decide (t < Event.timestamp e)) sorted
  = index + Z.of_nat (notLaterCount t sorted).
Proof.
  unfold notLaterCount.
  intros Hsorted. revert index.
  induction Hsorted as [|x l Hl IH Hx]; intros index Hex; [by inversion Hex|].
  simpl. rewrite filter_cons. case_bool_decide as Hlt.
  - rewrite decide_False by lia.
    rewrite notLater_none; [simpl; lia|].
    eapply Forall_impl; [exact Hx|]. unfold timestampLe. simpl. intros; lia.
  - rewrite decide_True by lia. simpl length.
    rewrite IH; [lia|].
    apply Exists_cons in Hex as [?|?]; [lia|done].
Qed.

Lemma notLaterCount_Permutation (t : Timestamp) (l1 l2 : list Event) :
  l1 ≡ₚ l2 → notLaterCount t l1 = notLaterCount t l2.
Proof. intros Hperm. unfold notLaterCount. by rewrite Hperm. Qed.

(** X3. The order advisory.  With no existing event nothing is out of order
    and no sequence is reported.  Otherwise the result does not depend on the
    order in which the existing events are listed: [expectedSequence] is
    their number plus one; the new event is out of order exactly when some
    existing event is strictly later; when it is, [actualSequence] is one
    more than the number of existing events that are not later than it; when
    it is not, [actualSequence] is 0, because [findIndex] finds nothing. *)
Theorem validateEventOrder_spec (existingEvents : list Event) (newEvent : Event) :
  (existingEvents = [] →
   validateEventOrder existingEvents newEvent
   = Normal (OrderValidationResult.mk false None None)) ∧
  (existingEvents ≠ [] →
   ∃ result,
     validateEventOrder existingEvents newEvent = Normal result ∧
     OrderValidationResult.expectedSequence result
     = Some (Z.of_nat (length existingEvents) + 1) ∧
     (OrderValidationResult.isOutOfOrder result = true
      ↔ Exists (λ e, Event.timestamp newEvent < Event.timestamp e) existingEvents) ∧
     (OrderValidationResult.isOutOfOrder result = true →
      OrderValidationResult.actualSequence result
      = Some (Z.of_nat (notLaterCount (Event.timestamp newEvent) existingEvents) + 1)) ∧
     (OrderValidationResult.isOutOfOrder result = false →
      OrderValidationResult.actualSequence result = Some 0)).
Proof.
  split; [by intros ->|].
  intros Hne. unfold validateEventOrder.
  rewrite bool_decide_eq_false_2 by (by destruct existingEvents).
  pose proof (array_sort_Permutation byTimestamp existingEvents) as Hperm.
  pose proof (array_sort_byTimestamp_sorted existingEvents) as Hsorted.
  pose proof (array_sort_length byTimestamp existingEvents) as Hlen.
  set (sorted := array_sort byTimestamp existingEvents) in *.
  destruct (lookup_lt_is_Some_2 sorted (length sorted - 1)) as [lastEvent Hlast].
  { rewrite Hlen. destruct existingEvents; [done|simpl; lia]. }
  rewrite Hlast.
  destruct (sorted_last_isLatest lastEvent sorted Hsorted Hlast) as [Hin Hmax].
  assert (Event.timestamp newEvent < Event.timestamp lastEvent
          ↔ Exists (λ e, Event.timestamp newEvent < Event.timestamp e) sorted)
    as Hout.
  { rewrite Exists_exists. split.
    - intros Hlt. apply list_elem_of_fmap in Hin as (e & He & Hein).
      exists e. split; [done|]. by rewrite <-He.
    - intros (e & Hein & Hlt). rewrite Forall_forall in Hmax.
      specialize (Hmax e Hein). simpl in Hmax. lia. }
  eexists. split; [done|]. simpl. split_and!.
  - by rewrite Hlen.
  - rewrite bool_decide_eq_true, Hout. by rewrite Hperm.
  - rewrite bool_decide_eq_true, Hout. intros Hex.
    unfold findIndex. rewrite (findIndexFrom_sorted _ _ _ Hsorted Hex).
    by rewrite (notLaterCount_Permutation _ _ _ Hperm).
  - rewrite bool_decide_eq_false, Hout. intros Hnone.
    unfold findIndex. rewrite findIndexFrom_none; [done|].
    apply Forall_forall. intros e He. apply bool_decide_eq_false.
    intros Hlt. apply Hnone. apply Exists_exists. eauto.
Qed.

Lemma validateEventOrder_spec_witness :
  ∃ result,
    validateEventOrder [eventC; eventA] eventB = Normal result ∧
    OrderValidationResult.isOutOfOrder result = true ∧
    OrderValidationResult.expectedSequence result = Some 3 ∧
    OrderValidationResult.actualSequence result = Some 2.
Proof.
  destruct (validateEventOrder_spec [eventC; eventA] eventB) as (_ & Hspec).
  destruct Hspec as (result & Hrun & Hexpected & Hout & Hactual & _); [discriminate|].
  assert (OrderValidationResult.isOutOfOrder result = true) as Htrue.
  { apply Hout. apply Exists_cons_hd. unfold eventB, eventC. simpl. lia. }
  exists result. split; [exact Hrun|]. split; [exact Htrue|].
  split; [exact Hexpected|]. rewrite (Hactual Htrue). reflexivity.
Defined.

(** ** More on the coordinator *)

Lemma upsert_eventuallyFails (store : nat → TxVerdict) (message : string)
    (sessionId userId : string) (event : Event) (now : Timestamp) (db : Db) :
  eventuallyFails store message →
  UpsertRun.outcome (upsertEventAndUpdateSession store sessionId userId event now db)
  = Throw message.
Proof.
  intros (n & Hn & Hfail & Hlast & Hbefore).
  unfold upsertEventAndUpdateSession, MAX_TRANSACTION_RETRIES in *.
  destruct n as [|[|[|n]]]; [| | |lia].
  - destruct Hlast as [?|Hnc]; [lia|]. by loop_step.
  - destruct Hlast as [?|Hnc]; [lia|].
    destruct (Hbefore 0%nat) as (m0 & H0 & Hc0); [lia|].
    by do 2 loop_step.
  - destruct (Hbefore 0%nat) as (m0 & H0 & Hc0); [lia|].
    destruct (Hbefore 1%nat) as (m1 & H1 & Hc1); [lia|].
    by do 3 loop_step.
Qed.

(** X5. A call that returns answers [duplicate] exactly when
    [isEventDuplicate] held for the event id before the call and [created]
    otherwise, never [updated]; after the call [isEventDuplicate] holds. *)
Theorem upsert_status_isEventDuplicate (store : nat → TxVerdict)
    (sessionId userId : string) (event : Event) (now : Timestamp) (db : Db)
    (result : UpsertResult) (db' : Db) :
  UpsertRun.outcome (upsertEventAndUpdateSession store sessionId userId event now db)
  = Normal (result, db') →
  (UpsertResult.status result = duplicate
   ↔ isEventDuplicate sessionId (Event.eventId event) db = true) ∧
  (UpsertResult.status result = created
   ↔ isEventDuplicate sessionId (Event.eventId event) db = false) ∧
  UpsertResult.status result ≠ updated ∧
  isEventDuplicate sessionId (Event.eventId event) db' = true.
Proof.
  intros Hout. unfold isEventDuplicate.
  destruct (upsert_returns_cases _ _ _ _ _ _ _ _ Hout)
    as [(Hsome & -> & ->)|(Hnone & aggregates & _ & -> & ->)]; simpl.
  - rewrite bool_decide_eq_true_2 by done. by split_and!.
  - replace (eventCollection sessionId
               (setSession sessionId (writtenSession sessionId userId aggregates now db)
                  (setEvent sessionId event db)))
      with (<[Event.eventId event := event]> (eventCollection sessionId db))
      by (by rewrite <-eventCollection_setEvent).
    rewrite lookup_insert_eq, Hnone.
    rewrite bool_decide_eq_false_2 by (by intros [? ?]).
    rewrite bool_decide_eq_true_2 by done. by split_and!.
Qed.

Lemma upsert_status_isEventDuplicate_witness :
  isEventDuplicate "session-1" (Event.eventId e1) emptyDb = false ∧
  isEventDuplicate "session-1" (Event.eventId e1) dbWithE1 = true.
Proof.
  assert (∃ result,
            UpsertRun.outcome
              (upsertEventAndUpdateSession reliable "session-1" "user-1" e1 1000 emptyDb)
            = Normal (result, dbWithE1)) as (result & Hout)
    by (eexists; vm_compute; reflexivity).
  destruct (upsert_status_isEventDuplicate _ _ _ _ _ _ _ _ Hout)
    as (_ & _ & _ & Hafter).
  split; [reflexivity|exact Hafter].
Defined.

Lemma upsert_returns_frame (store : nat → TxVerdict) (sessionId userId : string)
    (event : Event) (now : Timestamp) (db : Db) (result : UpsertResult) (db' : Db) :
  UpsertRun.outcome (upsertEventAndUpdateSession store sessionId userId event now db)
  = Normal (result, db') →
  Db.idempotency db' = Db.idempotency db ∧
  (∀ other, other ≠ sessionId →
     Db.sessions db' !! other = Db.sessions db !! other ∧
     eventCollection other db' = eventCollection other db) ∧
  (∀ eventId stored,
     eventCollection sessionId db !! eventId = Some stored →
     eventCollection sessionId db' !! eventId = Some stored).
Proof.
  intros Hout.
  destruct (upsert_returns_cases _ _ _ _ _ _ _ _ Hout)
    as [(Hsome & -> & ->)|(Hnone & aggregates & _ & -> & ->)]; [done|].
  split_and!.
  - done.
  - intros other Hne. split.
    + simpl. by rewrite lookup_insert_ne.
    + by apply (eventCollection_setEvent_ne sessionId other).
  - intros eventId stored Hstored.
    replace (eventCollection sessionId
               (setSession sessionId (writtenSession sessionId userId aggregates now db)
                  (setEvent sessionId event db)))
      with (<[Event.eventId event := event]> (eventCollection sessionId db))
      by (by rewrite <-eventCollection_setEvent).
    rewrite lookup_insert_ne; [done|]. intros Heq. congruence.
Qed.



(** X7. Submitting once more an event id that a returning call has just
    handled, with any payload, user, clock and store that lets an attempt
    commit, answers [duplicate] with the aggregates the first call returned
    and changes nothing. *)
Theorem upsert_resubmit (store store' : nat → TxVerdict)
    (sessionId userId userId' : string) (event event' : Event)
    (now now' : Timestamp) (db : Db) (result : UpsertResult) (db' : Db) :
  UpsertRun.outcome (upsertEventAndUpdateSession store sessionId userId event now db)
  = Normal (result, db') →
  Event.eventId event' = Event.eventId event →
  eventuallyCommits store' →
  UpsertRun.outcome
    (upsertEventAndUpdateSession store' sessionId userId' event' now' db')
  = Normal (UpsertResult.mk duplicate (UpsertResult.session result), db').
Proof.
  intros Hout Hid Hcommit.
  rewrite (upsert_eventuallyCommits _ _ _ _ _ _ Hcommit).
  destruct (upsert_returns_cases _ _ _ _ _ _ _ _ Hout)
    as [([existing Hsome] & -> & ->)|(Hnone & aggregates & _ & -> & ->)].
  - rewrite <-Hid in Hsome.
    by rewrite (transactionBody_duplicate _ _ _ existing _ _ Hsome).
  - erewrite transactionBody_duplicate.
    + unfold setSession at 1. cbn [Db.sessions].
      rewrite lookup_insert_eq. cbn [fmap option_fmap option_map].
      by rewrite writtenSession_aggregates.
    + rewrite Hid.
      replace (eventCollection sessionId
                 (setSession sessionId
                    (writtenSession sessionId userId aggregates now db)
                    (setEvent sessionId event db)))
        with (<[Event.eventId event := event]> (eventCollection sessionId db))
        by (by rewrite <-eventCollection_setEvent).
      apply lookup_insert_eq.
Qed.

Lemma upsert_resubmit_witness :
  ∃ result,
    UpsertRun.outcome
      (upsertEventAndUpdateSession reliable "session-1" "user-1" e1 1000 emptyDb)
    = Normal (result, dbWithE1) ∧
    UpsertRun.outcome
      (upsertEventAndUpdateSession twoConflicts "session-1" "user-2" e1 2000 dbWithE1)
    = Normal (UpsertResult.mk duplicate (UpsertResult.session result), dbWithE1).
Proof.
  assert (∃ result,
            UpsertRun.outcome
              (upsertEventAndUpdateSession reliable "session-1" "user-1" e1 1000 emptyDb)
            = Normal (result, dbWithE1)) as (result & Hout)
    by (eexists; vm_compute; reflexivity).
  exists result. split; [exact Hout|].
  apply (upsert_resubmit reliable twoConflicts "session-1" "user-1" "user-2" e1 e1
           1000 2000 emptyDb result dbWithE1 Hout eq_refl).
  apply eventuallyCommits_twoConflicts.
Defined.

(** ** Versions and event counts *)





(** ** The handler and the stored state *)




(** ** Round trips through the ledger *)

Lemma mergeObject_empty (response : IngestResponse) :
  mergeObject emptyObject response = response.
Proof.
  destruct response as [success session error errors].
  unfold mergeObject. simpl.
  by destruct success, session, error, errors.
Qed.

Lemma storedResponse_markProcessing (key sessionId : string) (now : Timestamp) (db : Db) :
  storedResponse key (markProcessing key sessionId now db) = emptyObject.
Proof. unfold storedResponse, markProcessing. simpl. by rewrite lookup_insert_eq. Qed.



(** ** Validation and normalisation together *)

Lemma validatePayload_wellFormed (payload : RawEventPayload) (now : Timestamp) :
  ValidationResult.isValid (validatePayload payload now DEFAULT_CONSTRAINTS) = true
  ↔ wellFormed payload now.
Proof.
  unfold wellFormed, validatePayload.
  rewrite validationResult_valid, !app_nil.
  rewrite <-validateMetrics_valid.
  destruct (truthy (RawEventPayload.eventId payload));
    destruct (truthy (RawEventPayload.sessionId payload));
    destruct (truthy (RawEventPayload.userId payload));
    destruct (truthyTimestamp (RawEventPayload.timestamp payload));
    cbn [negb]; try (split; [intros (?&?&?&?&?&?)|intros (?&?&?&?&?&?)]; done).
  destruct (normalizeTimestamp (RawEventPayload.timestamp payload)) as [t|m].
  - pose proof (validateTimestamp_valid t now) as Hts.
    destruct (ValidationResult.isValid (validateTimestamp t now DEFAULT_CONSTRAINTS))
      eqn:Htv; cbn [negb].
    + destruct (ValidationResult.isValid (validateMetrics payload DEFAULT_CONSTRAINTS))
        eqn:Hmv; cbn [negb].
      * split; [|done]. intros _. split_and!; try done.
        exists t. split; [done|]. by apply Hts.
      * apply validationResult_invalid in Hmv.
        split; [intros (_&_&_&_&_&?); done|intros (_&_&_&_&_&?); done].
    + apply validationResult_invalid in Htv.
      split; [intros (_&_&_&_&?&_); done|].
      intros (_&_&_&_&(t' & [= <-] & Hb)&_).
      apply Hts in Hb. done.
  - split; [intros (_&_&_&_&?&_); done|].
    intros (_&_&_&_&(t' & ? & _)&_). done.
Qed.

(** X11. With the default constraints, [validatePayload] accepts a payload
    exactly when the event id, the session id and the user id are non-empty
    strings, the timestamp is present (not [0], not [""]), it can be read and
    lies no more than 3600 s after and no more than 2592000 s before the
    clock, and every measure present is within its bounds, steps being a
    whole number. *)
Theorem validatePayload_valid (payload : RawEventPayload) (now : Timestamp) :
  ValidationResult.isValid (validatePayload payload now DEFAULT_CONSTRAINTS) = true
  ↔ wellFormed payload now.
Proof.
  unfold wellFormed, validatePayload.
  rewrite validationResult_valid, !app_nil.
  rewrite <-validateMetrics_valid.
  destruct (truthy (RawEventPayload.eventId payload));
    destruct (truthy (RawEventPayload.sessionId payload));
    destruct (truthy (RawEventPayload.userId payload));
    destruct (truthyTimestamp (RawEventPayload.timestamp payload));
    cbn [negb]; try (split; [intros (?&?&?&?&?&?)|intros (?&?&?&?&?&?)]; done).
  destruct (normalizeTimestamp (RawEventPayload.timestamp payload)) as [t|m].
  - pose proof (validateTimestamp_valid t now) as Hts.
    destruct (ValidationResult.isValid (validateTimestamp t now DEFAULT_CONSTRAINTS))
      eqn:Htv; cbn [negb].
    + destruct (ValidationResult.isValid (validateMetrics payload DEFAULT_CONSTRAINTS))
        eqn:Hmv; cbn [negb].
      * split; [|done]. intros _. split_and!; try done.
        exists t. split; [done|]. by apply Hts.
      * apply validationResult_invalid in Hmv.
        split; [intros (_&_&_&_&_&?); done|intros (_&_&_&_&_&?); done].
    + apply validationResult_invalid in Htv.
      split; [intros (_&_&_&_&?&_); done|].
      intros (_&_&_&_&(t' & [= <-] & Hb)&_).
      apply Hts in Hb. done.
  - split; [intros (_&_&_&_&?&_); done|].
    intros (_&_&_&_&(t' & ? & _)&_). done.
Qed.

Lemma validatePayload_valid_witness :
  ValidationResult.isValid
    (validatePayload (payloadWithDistance 100) 1700000000000 DEFAULT_CONSTRAINTS)
  = true.
Proof.
  apply validatePayload_valid. unfold wellFormed. split_and!; try reflexivity.
  - exists 1700000000000. split; [reflexivity|lia].
  - split; discriminate.
  - split; discriminate.
  - split; discriminate.
  - split; discriminate.
Defined.

Lemma truthy_true (s : option string) :
  truthy s = true ↔ ∃ x, s = Some x ∧ x ≠ "".
Proof.
  unfold truthy. destruct s as [x|].
  - rewrite negb_true_iff, String.eqb_neq. split; [eauto|]. by intros (? & [= <-] & ?).
  - split; [done|]. by intros (? & ? & _).
Qed.

Lemma withinRange_default (value : option Qc) (maximum : Z) :
  0 ≤ maximum → withinRange value maximum →
  (0 ≤ default 0 value)%Qc ∧ (default 0 value ≤ Qc_of_Z maximum)%Qc.
Proof.
  intros Hmax Hrange. destruct value as [x|]; [done|]. simpl.
  split; [done|]. unfold Qcle, Qle. simpl. lia.
Qed.

Lemma validated_normalizes (payload : RawEventPayload) (now : Timestamp) :
  ValidationResult.isValid (validatePayload payload now DEFAULT_CONSTRAINTS) = true →
  ∃ normalized,
    normalizePayload payload = Normal normalized ∧
    RawEventPayload.eventId payload = Some (NormalizedEventPayload.eventId normalized) ∧
    NormalizedEventPayload.eventId normalized ≠ "" ∧
    RawEventPayload.sessionId payload
    = Some (NormalizedEventPayload.sessionId normalized) ∧
    NormalizedEventPayload.sessionId normalized ≠ "" ∧
    RawEventPayload.userId payload = Some (NormalizedEventPayload.userId normalized) ∧
    NormalizedEventPayload.userId normalized ≠ "" ∧
    NormalizedEventPayload.timestamp normalized - now ≤ 3600 * 1000 ∧
    now - NormalizedEventPayload.timestamp normalized ≤ 2592000 * 1000 ∧
    NormalizedEventPayload.duration normalized
    = default 0%Qc (RawEventPayload.duration payload) ∧
    NormalizedEventPayload.distance normalized
    = default 0%Qc (RawEventPayload.distance payload) ∧
    NormalizedEventPayload.calories normalized
    = default 0%Qc (RawEventPayload.calories payload) ∧
    NormalizedEventPayload.steps normalized
    = default 0%Qc (RawEventPayload.steps payload) ∧
    (0 ≤ NormalizedEventPayload.duration normalized ≤ Qc_of_Z 86400)%Qc ∧
    (0 ≤ NormalizedEventPayload.distance normalized ≤ Qc_of_Z 100000)%Qc ∧
    (0 ≤ NormalizedEventPayload.calories normalized ≤ Qc_of_Z 10000)%Qc ∧
    (0 ≤ NormalizedEventPayload.steps normalized ≤ Qc_of_Z 100000)%Qc ∧
    isInteger (NormalizedEventPayload.steps normalized) = true.
Proof.
  intros Hvalid. apply validatePayload_wellFormed in Hvalid.
  destruct Hvalid as (He & Hs & Hu & _ & (t & Ht & Hfuture & Hpast)
                      & Hdist & Hcal & (Hsteps & Hwhole) & Hdur).
  apply truthy_true in He as (eventId & He & Hene).
  apply truthy_true in Hs as (sessionId & Hs & Hsne).
  apply truthy_true in Hu as (userId & Hu & Hune).
  unfold normalizePayload. rewrite Ht, He, Hs, Hu.
  eexists. split; [done|]. simpl.
  destruct (withinRange_default _ 86400 ltac:(lia) Hdur).
  destruct (withinRange_default _ 100000 ltac:(lia) Hdist).
  destruct (withinRange_default _ 10000 ltac:(lia) Hcal).
  destruct (withinRange_default _ 100000 ltac:(lia) Hsteps).
  split_and!; try done.
  destruct (RawEventPayload.steps payload); done.
Qed.

(** X12. A payload that [validatePayload] accepts is normalised without
    error: the three identifiers are those of the payload and are not empty,
    the timestamp lies within the accepted window, every measure is the
    payload's, or 0 when absent, and lies within its bounds, and the step
    count is a whole number. *)
Theorem normalizePayload_validated (payload : RawEventPayload) (now : Timestamp) :
  ValidationResult.isValid (validatePayload payload now DEFAULT_CONSTRAINTS) = true →
  ∃ normalized,
    normalizePayload payload = Normal normalized ∧
    RawEventPayload.eventId payload = Some (NormalizedEventPayload.eventId normalized) ∧
    NormalizedEventPayload.eventId normalized ≠ "" ∧
    RawEventPayload.sessionId payload
    = Some (NormalizedEventPayload.sessionId normalized) ∧
    NormalizedEventPayload.sessionId normalized ≠ "" ∧
    RawEventPayload.userId payload = Some (NormalizedEventPayload.userId normalized) ∧
    NormalizedEventPayload.userId normalized ≠ "" ∧
    NormalizedEventPayload.timestamp normalized - now ≤ 3600 * 1000 ∧
    now - NormalizedEventPayload.timestamp normalized ≤ 2592000 * 1000 ∧
    NormalizedEventPayload.duration normalized
    = default 0%Qc (RawEventPayload.duration payload) ∧
    NormalizedEventPayload.distance normalized
    = default 0%Qc (RawEventPayload.distance payload) ∧
    NormalizedEventPayload.calories normalized
    = default 0%Qc (RawEventPayload.calories payload) ∧
    NormalizedEventPayload.steps normalized
    = default 0%Qc (RawEventPayload.steps payload) ∧
    (0 ≤ NormalizedEventPayload.duration normalized ≤ Qc_of_Z 86400)%Qc ∧
    (0 ≤ NormalizedEventPayload.distance normalized ≤ Qc_of_Z 100000)%Qc ∧
    (0 ≤ NormalizedEventPayload.calories normalized ≤ Qc_of_Z 10000)%Qc ∧
    (0 ≤ NormalizedEventPayload.steps normalized ≤ Qc_of_Z 100000)%Qc ∧
    isInteger (NormalizedEventPayload.steps normalized) = true.
Proof.
  intros Hvalid. apply validatePayload_wellFormed in Hvalid.
  destruct Hvalid as (He & Hs & Hu & _ & (t & Ht & Hfuture & Hpast)
                      & Hdist & Hcal & (Hsteps & Hwhole) & Hdur).
  apply truthy_true in He as (eventId & He & Hene).
  apply truthy_true in Hs as (sessionId & Hs & Hsne).
  apply truthy_true in Hu as (userId & Hu & Hune).
  unfold normalizePayload. rewrite Ht, He, Hs, Hu.
  eexists. split; [done|]. simpl.
  destruct (withinRange_default _ 86400 ltac:(lia) Hdur).
  destruct (withinRange_default _ 100000 ltac:(lia) Hdist).
  destruct (withinRange_default _ 10000 ltac:(lia) Hcal).
  destruct (withinRange_default _ 100000 ltac:(lia) Hsteps).
  split_and!; try done.
  destruct (RawEventPayload.steps payload); done.
Qed.

Lemma normalizePayload_validated_witness :
  ∃ normalized,
    normalizePayload (payloadWithDistance 100) = Normal normalized ∧
    NormalizedEventPayload.sessionId normalized = "session-1" ∧
    NormalizedEventPayload.distance normalized = Qc_of_Z 100.
Proof.
  destruct (normalizePayload_validated (payloadWithDistance 100) 1700000000000)
    as (normalized & Hn & _ & _ & Hs & _ & _ & _ & _ & _ & _ & Hd & _).
  - vm_compute. reflexivity.
  - exists normalized. split; [exact Hn|].
    simpl in Hs, Hd. injection Hs as <-. split; [reflexivity|exact Hd].
Defined.

(** ** What the handler answers and writes *)

Lemma checkIdempotency_frame (key : string) (now : Timestamp) (db : Db) :
  Db.sessions (checkIdempotency key now db).2 = Db.sessions db ∧
  Db.events (checkIdempotency key now db).2 = Db.events db ∧
  Db.idempotency (checkIdempotency key now db).2 ⊆ Db.idempotency db.
Proof.
  unfold checkIdempotency.
  destruct (Db.idempotency db !! key) as [data|]; [|done].
  case_bool_decide; simpl.
  - split_and!; [done|done|]. apply delete_subseteq.
  - by destruct (IdempotencyRecord.status data).
Qed.

Lemma ingestSessionEvent_uncached (req : IngestRequest) (now : Timestamp)
    (store : nat → TxVerdict) (db : Db) (key : string) :
  extractIdempotencyKey req = Some key →
  key ≠ "" →
  IdempotencyResult.cachedResponse (checkIdempotency key now db).1 = None →
  ingestSessionEvent req now store db
  = validateAndUpsert key req now store (checkIdempotency key now db).2.
Proof.
  intros Hkey Hne Hnone. unfold ingestSessionEvent. rewrite Hkey.
  assert (truthy (Some key) = true) as ->.
  { simpl. apply negb_true_iff. by apply String.eqb_neq. }
  simpl. unfold processWithKey.
  destruct (checkIdempotency key now db) as [[isDuplicate cached] db1].
  simpl in *. subst cached. by destruct isDuplicate.
Qed.

Lemma validateAndUpsert_valid (key : string) (req : IngestRequest)
    (now : Timestamp) (store : nat → TxVerdict) (db1 : Db)
    (normalized : NormalizedEventPayload) :
  ValidationResult.isValid
    (validatePayload (IngestRequest.body req) now DEFAULT_CONSTRAINTS) = true →
  normalizePayload (IngestRequest.body req) = Normal normalized →
  validateAndUpsert key req now store db1
  = let sessionId := NormalizedEventPayload.sessionId normalized in
    let db2 := markProcessing key sessionId now db1 in
    match UpsertRun.outcome
            (upsertEventObject store sessionId
               (NormalizedEventPayload.userId normalized)
               (eventOf normalized now) now db2) with
    | Throw message => handleError (Some key) (Some sessionId) message now db2
    | Normal (result, db3) =>
        match cacheResponseObject key sessionId
                (successResponse sessionId result) now db3 with
        | Throw message => handleError (Some key) (Some sessionId) message now db3
        | Normal db4 => (HttpResponse.mk 200 (successResponse sessionId result), db4)
        end
    end.
Proof.
  intros Hvalid Hnorm. unfold validateAndUpsert.
  rewrite Hvalid, Hnorm. cbn [negb]. cbv zeta.
  fold (eventOf normalized now).
  destruct (UpsertRun.outcome _) as [[result db3]|m]; [|done].
  by destruct (UpsertResult.status result).
Qed.

Lemma normalizePayload_sequenceNumber (payload : RawEventPayload)
    (normalized : NormalizedEventPayload) :
  normalizePayload payload = Normal normalized →
  NormalizedEventPayload.sequenceNumber normalized
  = RawEventPayload.sequenceNumber payload.
Proof.
  unfold normalizePayload.
  destruct (normalizeTimestamp _); [|done]. by intros [= <-].
Qed.

(** What the [catch] block leaves when both ids are known. *)
Lemma handleError_known (key sessionId message : string) (now : Timestamp) (db : Db) :
  key ≠ "" → sessionId ≠ "" →
  handleError (Some key) (Some sessionId) message now db
  = (HttpResponse.mk 500
       (IngestResponse.mk (Some false) None (Some (ErrorMessage message)) None),
     markFailed key sessionId (ErrorObject message) now db).
Proof.
  intros Hk Hs. unfold handleError.
  assert (truthy (Some key) = true) as ->
    by (simpl; apply negb_true_iff; by apply String.eqb_neq).
  assert (truthy (Some sessionId) = true) as ->
    by (simpl; apply negb_true_iff; by apply String.eqb_neq).
  done.
Qed.

Lemma markFailed_after_processing (key sessionId : string) (error : ErrorValue)
    (now : Timestamp) (db1 db : Db) :
  Db.idempotency db = Db.idempotency (markProcessing key sessionId now db1) →
  Db.idempotency (markFailed key sessionId error now db) !! key
  = Some (IdempotencyRecord.mk sessionId failed
            (IngestResponse.mk None None (Some error) None) now (now + 86400000)).
Proof.
  intros Hledger. unfold markFailed.
  assert (storedResponse key db = emptyObject) as ->.
  { unfold storedResponse. rewrite Hledger. unfold markProcessing. simpl.
    by rewrite lookup_insert_eq. }
  simpl. rewrite lookup_insert_eq. unfold IDEMPOTENCY_TTL_SECONDS.
  by replace (now + 24 * 60 * 60 * 1000) with (now + 86400000) by lia.
Qed.

(** X13. A request whose key is the id of a document, with no cached
    response for it and a payload that validation rejects, is answered 400
    with the list of validation errors, which is not empty.  No session and
    no event is written, and no ledger record is created: the key is not
    marked. *)
Theorem ingest_invalid_payload (req : IngestRequest) (now : Timestamp)
    (store : nat → TxVerdict) (db : Db) (key : string) :
  extractIdempotencyKey req = Some key →
  validDocumentId key = true →
  IdempotencyResult.cachedResponse (checkIdempotency key now db).1 = None →
  ValidationResult.isValid
    (validatePayload (IngestRequest.body req) now DEFAULT_CONSTRAINTS) = false →
  let errors :=
    ValidationResult.errors
      (validatePayload (IngestRequest.body req) now DEFAULT_CONSTRAINTS) in
  let db' := (ingestSessionEvent req now store db).2 in
  (ingestSessionEvent req now store db).1
  = HttpResponse.mk 400 (IngestResponse.mk (Some false) None None (Some errors)) ∧
  errors ≠ [] ∧
  Db.sessions db' = Db.sessions db ∧
  Db.events db' = Db.events db ∧
  Db.idempotency db' ⊆ Db.idempotency db.
Proof.
  intros Hkey Hid Hnone Hinvalid errors db'. subst errors db'.
  assert (key ≠ "") as Hne by (by intros ->).
  rewrite (ingestSessionEvent_uncached _ _ _ _ _ Hkey Hne Hnone).
  unfold validateAndUpsert. rewrite Hinvalid. cbn [negb fst snd].
  destruct (checkIdempotency_frame key now db) as (Hs & He & Hi).
  split_and!; try done.
  unfold validatePayload in Hinvalid |- *.
  by apply validationResult_invalid in Hinvalid.
Qed.

Lemma ingest_invalid_payload_witness :
  HttpResponse.status
    (ingestSessionEvent
       (IngestRequest.mk (Some "key-9") (payloadWithDistance 100001))
       1700000000000 reliable dbWithE1).1 = 400 ∧
  Db.events
    (ingestSessionEvent
       (IngestRequest.mk (Some "key-9") (payloadWithDistance 100001))
       1700000000000 reliable dbWithE1).2 = Db.events dbWithE1.
Proof.
  destruct (ingest_invalid_payload
              (IngestRequest.mk (Some "key-9") (payloadWithDistance 100001))
              1700000000000 reliable dbWithE1 "key-9")
    as (Hresponse & _ & _ & Hevents & _).
  - reflexivity.
  - reflexivity.
  - reflexivity.
  - vm_compute. reflexivity.
  - split; [by rewrite Hresponse|exact Hevents].
Defined.

Lemma truthy_key (key : string) : key ≠ "" → truthy (Some key) = true.
Proof. intros Hne. simpl. apply negb_true_iff. by apply String.eqb_neq. Qed.

Lemma storedResponse_idempotency (key : string) (db db' : Db) :
  Db.idempotency db' = Db.idempotency db →
  storedResponse key db' = storedResponse key db.
Proof. unfold storedResponse. by intros ->. Qed.

(** The record left by a handler run that went through the upsert. *)
Lemma cacheResponse_after_upsert (store : nat → TxVerdict) (key sessionId userId : string)
    (event : Event) (now : Timestamp) (db1 : Db) (result : UpsertResult) (db3 : Db)
    (response : IngestResponse) :
  UpsertRun.outcome
    (upsertEventAndUpdateSession store sessionId userId event now
       (markProcessing key sessionId now db1)) = Normal (result, db3) →
  Db.idempotency (cacheResponse key sessionId response now db3) !! key
  = Some (IdempotencyRecord.mk sessionId completed response now (now + 86400000)).
Proof.
  intros Hout.
  destruct (upsert_returns_frame _ _ _ _ _ _ _ _ Hout) as (Hledger & _ & _).
  unfold cacheResponse.
  rewrite (storedResponse_idempotency key _ _ Hledger),
    storedResponse_markProcessing, mergeObject_empty.
  simpl. rewrite lookup_insert_eq. unfold IDEMPOTENCY_TTL_SECONDS.
  by replace (now + 24 * 60 * 60 * 1000) with (now + 86400000) by lia.
Qed.

(** X14. A request whose key, session id and event id are ids of
    documents, with no cached response and a valid payload that carries a
    sequence number, met by a store whose failure the coordinator does not
    absorb: the answer is 500 with the message of the failure, no session and
    no event is written, and the key is left marked [failed] for the
    payload's session, with the error stored and an expiry 24 hours ahead. *)
Theorem ingest_store_failure (req : IngestRequest) (now : Timestamp)
    (store : nat → TxVerdict) (db : Db) (key message : string) :
  extractIdempotencyKey req = Some key →
  storableIds key (IngestRequest.body req) = true →
  IdempotencyResult.cachedResponse (checkIdempotency key now db).1 = None →
  ValidationResult.isValid
    (validatePayload (IngestRequest.body req) now DEFAULT_CONSTRAINTS) = true →
  is_Some (RawEventPayload.sequenceNumber (IngestRequest.body req)) →
  eventuallyFails store message →
  let db' := (ingestSessionEvent req now store db).2 in
  ∃ sessionId,
    RawEventPayload.sessionId (IngestRequest.body req) = Some sessionId ∧
    (ingestSessionEvent req now store db).1
    = HttpResponse.mk 500
        (IngestResponse.mk (Some false) None (Some (ErrorMessage message)) None) ∧
    Db.sessions db' = Db.sessions db ∧
    Db.events db' = Db.events db ∧
    Db.idempotency db' !! key
    = Some (IdempotencyRecord.mk sessionId failed
              (IngestResponse.mk None None (Some (ErrorObject message)) None)
              now (now + 86400000)).
Proof.
  intros Hkey Hids Hnone Hvalid [n Hseq] Hfails db'. subst db'.
  assert (key ≠ "") as Hne.
  { intros ->. unfold storableIds in Hids. simpl in Hids. done. }
  rewrite (ingestSessionEvent_uncached _ _ _ _ _ Hkey Hne Hnone).
  destruct (validated_normalizes _ _ Hvalid)
    as (normalized & Hnorm & _ & _ & Hsid & Hsne & _).
  rewrite (validateAndUpsert_valid _ _ _ _ _ _ Hvalid Hnorm). cbv zeta.
  rewrite upsertEventObject_outcome.
  assert (Event.sequenceNumber (eventOf normalized now) = Some n) as ->.
  { simpl. by rewrite (normalizePayload_sequenceNumber _ _ Hnorm). }
  assert (∀ stored : option Event,
            match stored, Some n with
            | None, None => Throw (undefinedValue "sequenceNumber")
            | _, _ =>
                UpsertRun.outcome
                  (upsertEventAndUpdateSession store
                     (NormalizedEventPayload.sessionId normalized)
                     (NormalizedEventPayload.userId normalized)
                     (eventOf normalized now) now
                     (markProcessing key (NormalizedEventPayload.sessionId normalized)
                        now (checkIdempotency key now db).2))
            end = Throw message) as ->.
  { intros stored. rewrite (upsert_eventuallyFails _ _ _ _ _ _ _ Hfails).
    by destruct stored. }
  destruct (checkIdempotency_frame key now db) as (Hs & He & _).
  exists (NormalizedEventPayload.sessionId normalized).
  rewrite (handleError_known _ _ _ _ _ Hne Hsne). cbn [fst snd].
  split_and!; try done.
  by apply (markFailed_after_processing _ _ _ _ (checkIdempotency key now db).2).
Qed.

Lemma ingest_store_failure_witness :
  (ingestSessionEvent readmeRequest 1705314601000 unavailable emptyDb).1
  = HttpResponse.mk 500
      (IngestResponse.mk (Some false) None
         (Some (ErrorMessage "14 UNAVAILABLE: No connection established")) None) ∧
  Db.events (ingestSessionEvent readmeRequest 1705314601000 unavailable emptyDb).2
  = Db.events emptyDb.
Proof.
  destruct (ingest_store_failure readmeRequest 1705314601000 unavailable emptyDb
              "key-1" "14 UNAVAILABLE: No connection established")
    as (sessionId & _ & Hresponse & _ & Hevents & _).
  - reflexivity.
  - reflexivity.
  - reflexivity.
  - vm_compute. reflexivity.
  - eexists. reflexivity.
  - exists 0%nat. unfold MAX_TRANSACTION_RETRIES.
    split; [lia|]. split; [reflexivity|]. split; [right; reflexivity|].
    intros i Hi. lia.
  - split; [exact Hresponse|exact Hevents].
Defined.

Lemma eventCollection_events (sessionId : string) (db db' : Db) :
  Db.events db' = Db.events db →
  eventCollection sessionId db' = eventCollection sessionId db.
Proof. unfold eventCollection. by intros ->. Qed.

(** The database on which the handler runs the upsert holds the sessions
    and events it was given. *)
Lemma prepared_frame (key sessionId : string) (now : Timestamp) (db : Db) :
  Db.sessions (markProcessing key sessionId now (checkIdempotency key now db).2)
  = Db.sessions db ∧
  Db.events (markProcessing key sessionId now (checkIdempotency key now db).2)
  = Db.events db.
Proof. destruct (checkIdempotency_frame key now db) as (Hs & He & _). by split. Qed.



(** X16. The same request shape, but with an event id that is already stored
    for the session (a new idempotency key for an old event), with or without
    a sequence number.  Sessions and events are left exactly as they were, so
    [eventCount] does not advance.  When the session has a record, the answer
    is 200 with [success: true] and the totals and count of that record, and
    the key is left [completed] with this answer cached.  When it has none,
    the response object holds [session: undefined], caching it is refused,
    and the answer is 500 with the key left [failed]. *)
Theorem ingest_known_event (req : IngestRequest) (now : Timestamp)
    (store : nat → TxVerdict) (db : Db) (key : string)
    (normalized : NormalizedEventPayload) :
  extractIdempotencyKey req = Some key →
  storableIds key (IngestRequest.body req) = true →
  IdempotencyResult.cachedResponse (checkIdempotency key now db).1 = None →
  ValidationResult.isValid
    (validatePayload (IngestRequest.body req) now DEFAULT_CONSTRAINTS) = true →
  normalizePayload (IngestRequest.body req) = Normal normalized →
  eventuallyCommits store →
  let sessionId := NormalizedEventPayload.sessionId normalized in
  isEventDuplicate sessionId (NormalizedEventPayload.eventId normalized) db = true →
  let db' := (ingestSessionEvent req now store db).2 in
  Db.sessions db' = Db.sessions db ∧
  Db.events db' = Db.events db ∧
  (∀ session, Db.sessions db !! sessionId = Some session →
     let answer :=
       IngestResponse.mk (Some true)
         (Some (SessionView.mk sessionId
                  {| AggregateView.totalDuration := Session.totalDuration session;
                     AggregateView.totalDistance := Session.totalDistance session;
                     AggregateView.totalCalories := Session.totalCalories session;
                     AggregateView.totalSteps := Session.totalSteps session;
                     AggregateView.eventCount := Session.eventCount session |}))
         None None in
     (ingestSessionEvent req now store db).1 = HttpResponse.mk 200 answer ∧
     Db.idempotency db' !! key
     = Some (IdempotencyRecord.mk sessionId completed answer now (now + 86400000))) ∧
  (Db.sessions db !! sessionId = None →
     (ingestSessionEvent req now store db).1
     = HttpResponse.mk 500
         (IngestResponse.mk (Some false) None
            (Some (ErrorMessage (undefinedValue "response.session"))) None) ∧
     Db.idempotency db' !! key
     = Some (IdempotencyRecord.mk sessionId failed
               (IngestResponse.mk None None
                  (Some (ErrorObject (undefinedValue "response.session"))) None)
               now (now + 86400000))).
Proof.
  intros Hkey Hids Hnone Hvalid Hnorm Hcommit sessionId Hknown db'.
  subst db'.
  assert (key ≠ "") as Hne.
  { intros ->. unfold storableIds in Hids. simpl in Hids. done. }
  destruct (validated_normalizes _ _ Hvalid)
    as (normalized' & Hnorm' & _ & _ & _ & Hsne & _).
  assert (normalized' = normalized) as -> by congruence.
  rewrite (ingestSessionEvent_uncached _ _ _ _ _ Hkey Hne Hnone).
  rewrite (validateAndUpsert_valid _ _ _ _ _ _ Hvalid Hnorm). cbv zeta.
  fold sessionId in Hsne |- *.
  destruct (prepared_frame key sessionId now db) as (Hs & He).
  set (db2 := markProcessing key sessionId now (checkIdempotency key now db).2) in *.
  unfold isEventDuplicate in Hknown. apply bool_decide_eq_true in Hknown.
  destruct Hknown as [existing Hexisting].
  assert (eventCollection sessionId db2 !! Event.eventId (eventOf normalized now)
          = Some existing) as Hstored
    by (by rewrite (eventCollection_events _ _ _ He)).
  assert (UpsertRun.outcome
            (upsertEventAndUpdateSession store sessionId
               (NormalizedEventPayload.userId normalized) (eventOf normalized now)
               now db2)
          = Normal (UpsertResult.mk duplicate
                      (sessionAggregates <$> Db.sessions db !! sessionId), db2))
    as Hout.
  { rewrite (upsert_eventuallyCommits _ _ _ _ _ _ Hcommit).
    rewrite (transactionBody_duplicate _ _ _ _ _ _ Hstored). by rewrite Hs. }
  rewrite upsertEventObject_outcome, Hstored, Hout.
  unfold cacheResponseObject, successResponse.
  cbn [UpsertResult.session IngestResponse.session].
  destruct (Db.sessions db !! sessionId) as [session|] eqn:Hsession;
    cbn [fmap option_fmap option_map].
  - cbn [fst snd]. split_and!; [done|done| |done].
    intros session' [= <-]. split; [done|].
    apply (cacheResponse_after_upsert store _ _ _ _ _ _ _ _ _ Hout).
  - rewrite (handleError_known _ _ _ _ _ Hne Hsne). cbn [fst snd].
    split_and!; [done|done|done|].
    intros _. split; [done|].
    by apply (markFailed_after_processing _ _ _ _ (checkIdempotency key now db).2).
Qed.

Lemma ingest_known_event_witness :
  let known :=
    (ingestSessionEvent readmeRequest 1705314601000 reliable emptyDb).2 in
  let again :=
    ingestSessionEvent
      (IngestRequest.mk (Some "key-2") readmePayload)
      1705314605000 reliable known in
  Db.sessions again.2 = Db.sessions known ∧
  Db.events again.2 = Db.events known.
Proof.
  intros known again. subst again.
  assert (∃ normalized, normalizePayload readmePayload = Normal normalized)
    as (normalized & Hnorm) by (eexists; reflexivity).
  destruct (ingest_known_event
              (IngestRequest.mk (Some "key-2") readmePayload)
              1705314605000 reliable known "key-2" normalized)
    as (Hsessions & Hevents & _).
  - reflexivity.
  - reflexivity.
  - vm_compute. reflexivity.
  - vm_compute. reflexivity.
  - exact Hnorm.
  - exists 0%nat. unfold MAX_TRANSACTION_RETRIES.
    split; [lia|]. split; [reflexivity|]. intros i Hi. lia.
  - injection Hnorm as <-. vm_compute. reflexivity.
  - split; [exact Hsessions|exact Hevents].
Defined.

(** X20. A request whose key, session id and event id are ids of
    documents, with no cached response and a valid payload that carries no
    sequence number, for an event id not yet stored: the event object of
    step 6 holds [sequenceNumber: undefined], the store client refuses to
    write it, and whatever the store would answer the request gets 500 with
    the message of the client; no session and no event is written and the
    key is left marked [failed]. *)
Theorem ingest_without_sequenceNumber (req : IngestRequest) (now : Timestamp)
    (store : nat → TxVerdict) (db : Db) (key : string)
    (normalized : NormalizedEventPayload) :
  extractIdempotencyKey req = Some key →
  storableIds key (IngestRequest.body req) = true →
  IdempotencyResult.cachedResponse (checkIdempotency key now db).1 = None →
  ValidationResult.isValid
    (validatePayload (IngestRequest.body req) now DEFAULT_CONSTRAINTS) = true →
  normalizePayload (IngestRequest.body req) = Normal normalized →
  RawEventPayload.sequenceNumber (IngestRequest.body req) = None →
  let sessionId := NormalizedEventPayload.sessionId normalized in
  isEventDuplicate sessionId (NormalizedEventPayload.eventId normalized) db = false →
  let db' := (ingestSessionEvent req now store db).2 in
  (ingestSessionEvent req now store db).1
  = HttpResponse.mk 500
      (IngestResponse.mk (Some false) None
         (Some (ErrorMessage (undefinedValue "sequenceNumber"))) None) ∧
  Db.sessions db' = Db.sessions db ∧
  Db.events db' = Db.events db ∧
  Db.idempotency db' !! key
  = Some (IdempotencyRecord.mk sessionId failed
            (IngestResponse.mk None None
               (Some (ErrorObject (undefinedValue "sequenceNumber"))) None)
            now (now + 86400000)).
Proof.
  intros Hkey Hids Hnone Hvalid Hnorm Hseq sessionId Hfresh db'. subst db'.
  assert (key ≠ "") as Hne.
  { intros ->. unfold storableIds in Hids. simpl in Hids. done. }
  destruct (validated_normalizes _ _ Hvalid)
    as (normalized' & Hnorm' & _ & _ & _ & Hsne & _).
  assert (normalized' = normalized) as -> by congruence.
  rewrite (ingestSessionEvent_uncached _ _ _ _ _ Hkey Hne Hnone).
  rewrite (validateAndUpsert_valid _ _ _ _ _ _ Hvalid Hnorm). cbv zeta.
  fold sessionId in Hsne |- *.
  destruct (prepared_frame key sessionId now db) as (Hs & He).
  set (db2 := markProcessing key sessionId now (checkIdempotency key now db).2) in *.
  assert (eventCollection sessionId db2 !! Event.eventId (eventOf normalized now) = None)
    as Hnew.
  { rewrite (eventCollection_events _ _ _ He).
    unfold isEventDuplicate in Hfresh. apply bool_decide_eq_false in Hfresh.
    by apply eq_None_not_Some. }
  rewrite upsertEventObject_outcome, Hnew.
  assert (Event.sequenceNumber (eventOf normalized now) = None) as ->.
  { simpl. by rewrite (normalizePayload_sequenceNumber _ _ Hnorm). }
  rewrite (handleError_known _ _ _ _ _ Hne Hsne). cbn [fst snd].
  split_and!; [done|done|done|].
  by apply (markFailed_after_processing _ _ _ _ (checkIdempotency key now db).2).
Qed.

Lemma ingest_without_sequenceNumber_witness :
  HttpResponse.status
    (ingestSessionEvent retryRequest 1700000000000 reliable emptyDb).1 = 500 ∧
  Db.events (ingestSessionEvent retryRequest 1700000000000 reliable emptyDb).2
  = Db.events emptyDb.
Proof.
  assert (∃ normalized, normalizePayload (IngestRequest.body retryRequest)
                        = Normal normalized) as (normalized & Hnorm)
    by (eexists; reflexivity).
  destruct (ingest_without_sequenceNumber retryRequest 1700000000000 reliable emptyDb
              "key-1" normalized) as (Hresponse & _ & Hevents & _).
  - reflexivity.
  - reflexivity.
  - reflexivity.
  - vm_compute. reflexivity.
  - exact Hnorm.
  - reflexivity.
  - injection Hnorm as <-. reflexivity.
  - split; [by rewrite Hresponse|exact Hevents].
Defined.

(** ** Retrying a request *)

Lemma ingestSessionEvent_replays (req : IngestRequest) (now : Timestamp)
    (store : nat → TxVerdict) (db : Db) (key : string) (record : IdempotencyRecord) :
  extractIdempotencyKey req = Some key →
  key ≠ "" →
  Db.idempotency db !! key = Some record →
  IdempotencyRecord.status record = completed →
  ¬ IdempotencyRecord.expiresAt record < now →
  ingestSessionEvent req now store db
  = (HttpResponse.mk 200 (IdempotencyRecord.response record), db).
Proof.
  intros Hkey Hne Hrecord Hstatus Hfresh.
  unfold ingestSessionEvent. rewrite Hkey, (truthy_key _ Hne). simpl.
  unfold processWithKey, checkIdempotency.
  by rewrite Hrecord, bool_decide_eq_false_2, Hstatus.
Qed.

(** X17. A request answered 200 leaves, under its idempotency key, a
    [completed] record holding exactly the body it was answered with; when
    the answer was computed rather than replayed, the record expires 24 hours
    after that request.  Any later request that resolves to the same key,
    while the record has not expired, gets the same answer, whatever its
    payload and whatever the store does, and the database is left as it is:
    nothing is processed twice. *)
Theorem ingest_retry_idempotent (req req' : IngestRequest) (now now' : Timestamp)
    (store store' : nat → TxVerdict) (db : Db) (key : string) :
  extractIdempotencyKey req = Some key →
  extractIdempotencyKey req' = Some key →
  key ≠ "" →
  let first := ingestSessionEvent req now store db in
  HttpResponse.status first.1 = 200 →
  ∃ record,
    Db.idempotency first.2 !! key = Some record ∧
    IdempotencyRecord.status record = completed ∧
    IdempotencyRecord.response record = HttpResponse.json first.1 ∧
    ¬ IdempotencyRecord.expiresAt record < now ∧
    (IdempotencyResult.cachedResponse (checkIdempotency key now db).1 = None →
     IdempotencyRecord.expiresAt record = now + 86400000) ∧
    (¬ IdempotencyRecord.expiresAt record < now' →
     ingestSessionEvent req' now' store' first.2 = first).
Proof.
  intros Hkey Hkey' Hne first Hok. subst first.
  assert (∀ record,
    Db.idempotency (ingestSessionEvent req now store db).2 !! key = Some record →
    IdempotencyRecord.status record = completed →
    IdempotencyRecord.response record
    = HttpResponse.json (ingestSessionEvent req now store db).1 →
    ¬ IdempotencyRecord.expiresAt record < now' →
    ingestSessionEvent req' now' store'
      (ingestSessionEvent req now store db).2
    = ingestSessionEvent req now store db) as Hreplay.
  { intros record Hrecord Hstatus Hresponse Hfresh.
    rewrite (ingestSessionEvent_replays _ _ _ _ _ _ Hkey' Hne Hrecord Hstatus Hfresh).
    rewrite Hresponse.
    destruct (ingestSessionEvent req now store db) as [[status json] db'].
    simpl in *. by subst status. }
  destruct (IdempotencyResult.cachedResponse (checkIdempotency key now db).1)
    as [cached|] eqn:Hcached.
  - (* answered from the cache *)
    assert (∃ record, Db.idempotency db !! key = Some record ∧
              IdempotencyRecord.status record = completed ∧
              ¬ IdempotencyRecord.expiresAt record < now) as (record & Hr & Hs & Hf).
    { unfold checkIdempotency in Hcached.
      destruct (Db.idempotency db !! key) as [data|]; [|done].
      case_bool_decide; [done|].
      destruct (IdempotencyRecord.status data) eqn:Hst; try done. eauto. }
    pose proof (ingestSessionEvent_replays req now store db key record
                  Hkey Hne Hr Hs Hf) as Hfirst.
    exists record. rewrite Hfirst in Hreplay |- *. simpl in *.
    split_and!; try done. intros Hfresh. by apply (Hreplay record).
  - (* computed *)
    rewrite (ingestSessionEvent_uncached _ _ _ _ _ Hkey Hne Hcached) in Hok, Hreplay |- *.
    unfold validateAndUpsert in Hok, Hreplay |- *.
    destruct (ValidationResult.isValid _); cbn [negb] in *; [|done].
    destruct (normalizePayload _) as [normalized|m]; [|done].
    cbv zeta in *.
    destruct (UpsertRun.outcome _) as [[result db3]|m] eqn:Hout; [|done].
    apply upsertEventObject_returns in Hout.
    pose proof (cacheResponse_after_upsert store _ _ _ _ _ _ _ _
                  (successResponse (NormalizedEventPayload.sessionId normalized) result)
                  Hout) as Hrecord.
    unfold cacheResponseObject in Hok, Hreplay |- *.
    eexists.
    destruct (UpsertResult.status result);
      (destruct (IngestResponse.session
                   (successResponse (NormalizedEventPayload.sessionId normalized)
                      result)); [|done]);
      cbn [fst snd] in *;
      (split; [exact Hrecord|]); simpl; split_and!; try done; try lia;
      intros Hfresh; by eapply Hreplay.
Qed.

Lemma ingest_retry_idempotent_witness :
  let first := ingestSessionEvent readmeRequest 1705314601000 reliable emptyDb in
  ingestSessionEvent readmeRequest 1705314602000 unavailable first.2 = first.
Proof.
  intros first. subst first.
  destruct (ingest_retry_idempotent readmeRequest readmeRequest
              1705314601000 1705314602000 reliable unavailable emptyDb "key-1")
    as (record & _ & _ & _ & _ & Hexpiry & Hreplay).
  - reflexivity.
  - reflexivity.
  - discriminate.
  - vm_compute. reflexivity.
  - apply Hreplay. rewrite Hexpiry; [lia|reflexivity].
Defined.

(** X18. A request whose key has a [processing], unexpired record is not
    held back.  The ledger reports a duplicate without cached response, and
    the handler goes on to validate and process the request: it answers as it
    would if the key had no record, and for a valid payload it also leaves
    the database exactly as it would then, the record being overwritten. *)
Theorem ingest_in_flight (req : IngestRequest) (now : Timestamp)
    (store : nat → TxVerdict) (db : Db) (key : string) (record : IdempotencyRecord) :
  extractIdempotencyKey req = Some key →
  key ≠ "" →
  Db.idempotency db !! key = Some record →
  IdempotencyRecord.status record = processing →
  ¬ IdempotencyRecord.expiresAt record < now →
  checkIdempotency key now db = (IdempotencyResult.mk true None, db) ∧
  ingestSessionEvent req now store db = validateAndUpsert key req now store db ∧
  (ingestSessionEvent req now store db).1
  = (ingestSessionEvent req now store (deleteIdempotency key db)).1 ∧
  (ValidationResult.isValid
     (validatePayload (IngestRequest.body req) now DEFAULT_CONSTRAINTS) = true →
   ingestSessionEvent req now store db
   = ingestSessionEvent req now store (deleteIdempotency key db)).
Proof.
  intros Hkey Hne Hrecord Hstatus Hfresh.
  assert (checkIdempotency key now db = (IdempotencyResult.mk true None, db)) as Hcheck.
  { unfold checkIdempotency. by rewrite Hrecord, bool_decide_eq_false_2, Hstatus. }
  assert (ingestSessionEvent req now store db
          = validateAndUpsert key req now store db) as Hrun.
  { rewrite (ingestSessionEvent_uncached _ _ _ _ _ Hkey Hne); by rewrite Hcheck. }
  assert (ingestSessionEvent req now store (deleteIdempotency key db)
          = validateAndUpsert key req now store (deleteIdempotency key db)) as Hrun'.
  { rewrite (ingestSessionEvent_uncached _ _ _ _ _ Hkey Hne);
      by rewrite checkIdempotency_deleted. }
  split_and!; [done|done| |].
  - rewrite Hrun, Hrun'. apply validateAndUpsert_deleted.
  - intros Hvalid. rewrite Hrun, Hrun'.
    destruct (validated_normalizes _ _ Hvalid) as (normalized & Hnorm & _).
    rewrite !(validateAndUpsert_valid _ _ _ _ _ _ Hvalid Hnorm). cbv zeta.
    by rewrite markProcessing_deleted.
Qed.

Lemma ingest_in_flight_witness :
  let inFlight := markProcessing "key-1" "session-456" 1705314601000 emptyDb in
  HttpResponse.status
    (ingestSessionEvent readmeRequest 1705314601500 reliable inFlight).1 = 200 ∧
  ingestSessionEvent readmeRequest 1705314601500 reliable inFlight
  = ingestSessionEvent readmeRequest 1705314601500 reliable
      (deleteIdempotency "key-1" inFlight).
Proof.
  intros inFlight.
  destruct (ingest_in_flight readmeRequest 1705314601500 reliable inFlight "key-1"
              (IdempotencyRecord.mk "session-456" processing emptyObject
                 1705314601000 1705401001000))
    as (_ & _ & _ & Hsame).
  - reflexivity.
  - discriminate.
  - reflexivity.
  - reflexivity.
  - simpl. lia.
  - split; [vm_compute; reflexivity|].
    apply Hsame. vm_compute. reflexivity.
Defined.



